(** * Verification of the task definitions of [tasks.py]

    [tasks.py] declares six tasks ([build], [clean], [pack], [publish],
    [restore_local], [run_example]) for the [invoke] task runner, chains
    them through [pre=[...]] prerequisite lists and mounts the tasks of
    [tests/tasks.py] under the prefix [test].

    The development has three layers:
    - the task runner (resolver, command executor, namespace registry),
      which is a third-party library and is therefore modelled from the
      specification;
    - the filesystem and process collaborators ([pathlib], [shutil],
      [os.getenv], the spawned toolchain);
    - the task bodies, translated statement by statement from [tasks.py]. *)

From stdpp Require Import gmap strings list.

#[local] Set Warnings "-register-all,-clear-no-such-hyp".

(** ** Exceptions and the state-and-exception monad of task bodies *)

(** What a Python call does: it raises or it returns. *)
Inductive Outcome (E X : Type) : Type :=
| Raised (e : E)
| Returned (x : X).
Arguments Raised {E X} e.
Arguments Returned {E X} x.

(** A computation over a mutable world [S] that may raise [E]. The world is
    returned in both cases: a raise does not undo earlier effects. *)
Definition M (S E X : Type) : Type := S -> S * Outcome E X.

Definition ret {S E X} (x : X) : M S E X := fun s => (s, Returned x).

Definition raise {S E X} (e : E) : M S E X := fun s => (s, Raised e).

Definition bind {S E X Y} (m : M S E X) (k : X -> M S E Y) : M S E Y :=
  fun s =>
    match m s with
    | (s', Raised e) => (s', Raised e)
    | (s', Returned x) => k x s'
    end.

Notation "x <- m ;; k" := (bind m (fun x => k))
  (at level 100, m at next level, right associativity).
Notation "m ;;; k" := (bind m (fun _ => k))
  (at level 100, right associativity).

(** [for x in l: body(x)] *)
Fixpoint for_each {S E X} (l : list X) (body : X -> M S E unit) : M S E unit :=
  match l with
  | [] => ret tt
  | x :: l' => body x ;;; for_each l' body
  end.

(** [if b: m] *)
Definition when {S E} (b : bool) (m : M S E unit) : M S E unit :=
  if b then m else ret tt.

(** The names of [l] that are neither in [seen] nor earlier in [l], in
    order. *)
Fixpoint first_occurrences (seen l : list string) : list string :=
  match l with
  | [] => []
  | n :: l' =>
      if bool_decide (n ∈ seen) then first_occurrences seen l'
      else n :: first_occurrences (seen ++ [n]) l'
  end.

(** ** The task resolver *)

Section Resolver.
Variables (S E A : Type).
(** The empty argument set with which prerequisites are invoked. *)
Variable no_args : A.

(** Modelled from the spec: the Task of the runner (the [invoke] library,
    absent from the sources): a name, the declared [pre] list (references to
    tasks defined earlier, hence a finite tree) and a body. *)
Inductive Task : Type :=
  MkTask (name : string) (pre : list Task) (body : A -> M S E unit).

Definition task_name (t : Task) : string :=
  match t with MkTask n _ _ => n end.
Definition task_pre (t : Task) : list Task :=
  match t with MkTask _ ps _ => ps end.
Definition task_body (t : Task) : A -> M S E unit :=
  match t with MkTask _ _ b => b end.

(** Modelled from the spec: the state of one top-level invocation of the
    runner: the world, the names of the tasks whose body has been started,
    and the failure, once there is one. *)
Record Run : Type := MkRun {
  run_state : S;
  run_executed : list string;
  run_failure : option E
}.

Definition start (s : S) : Run :=
  {| run_state := s; run_executed := []; run_failure := None |}.

(** Modelled from the spec: the step of the Task Resolver that runs one
    body (the runner itself is the [invoke] library, absent from the
    sources). Nothing runs after a failure (fail-fast); a task already
    executed within this invocation is skipped; otherwise the body runs
    and its failure, if any, is kept as it is. *)
Definition run_call (t : Task) (args : A) (r : Run) : Run :=
  match run_failure r with
  | Some _ => r
  | None =>
      if bool_decide (task_name t ∈ run_executed r) then r
      else
        match task_body t args (run_state r) with
        | (s', Raised e) =>
            {| run_state := s';
               run_executed := run_executed r ++ [task_name t];
               run_failure := Some e |}
        | (s', Returned _) =>
            {| run_state := s';
               run_executed := run_executed r ++ [task_name t];
               run_failure := None |}
        end
  end.

(** Modelled from the spec: [resolve_and_run], the depth-first walk of the
    prerequisites in declared order, each invoked with no arguments, and
    then the requested body with [args]. *)
Fixpoint walk (t : Task) (args : A) (r : Run) : Run :=
  match t with
  | MkTask _ ps _ =>
      let r1 :=
        (fix walk_pre (ps : list Task) (r : Run) : Run :=
           match ps with
           | [] => r
           | p :: ps' => walk_pre ps' (walk p no_args r)
           end) ps r in
      run_call t args r1
  end.

Definition resolve_and_run (t : Task) (args : A) (s : S) : Run :=
  walk t args (start s).

(** [run_call] over a list of calls. *)
Definition run_calls (l : list (Task * A)) (r : Run) : Run :=
  fold_left (fun r c => run_call c.1 c.2 r) l r.

(** Modelled from the spec: the prerequisite closure of the runner, built
    as a list: expand the calls depth first in declared order, drop every
    call whose task name came earlier, execute what is left in order. *)
Fixpoint expand_calls (t : Task) : list Task :=
  match t with
  | MkTask _ ps _ =>
      (fix expand_pre (ps : list Task) : list Task :=
         match ps with
         | [] => []
         | p :: ps' => expand_calls p ++ expand_pre ps'
         end) ps ++ [t]
  end.

Definition calls_of (t : Task) (args : A) : list (Task * A) :=
  map (fun p => (p, no_args)) (flat_map expand_calls (task_pre t)) ++ [(t, args)].

Fixpoint dedupe_from (seen : list string) (l : list (Task * A)) : list (Task * A) :=
  match l with
  | [] => []
  | c :: l' =>
      if bool_decide (task_name c.1 ∈ seen) then dedupe_from seen l'
      else c :: dedupe_from (seen ++ [task_name c.1]) l'
  end.

Definition dedupe : list (Task * A) -> list (Task * A) := dedupe_from [].

(** Execute the calls in order, stopping at the first failure. *)
Fixpoint execute_calls (l : list (Task * A)) (r : Run) : Run :=
  match l with
  | [] => r
  | c :: l' =>
      match run_failure r with
      | Some _ => r
      | None =>
          match task_body c.1 c.2 (run_state r) with
          | (s', Raised e) =>
              {| run_state := s';
                 run_executed := run_executed r ++ [task_name c.1];
                 run_failure := Some e |}
          | (s', Returned _) =>
              execute_calls l'
                {| run_state := s';
                   run_executed := run_executed r ++ [task_name c.1];
                   run_failure := None |}
          end
      end
  end.

(** The prerequisite closure of [t], in execution order. *)
Definition closure (t : Task) (args : A) : list (Task * A) :=
  dedupe (calls_of t args).

Definition call_names (l : list (Task * A)) : list string :=
  map (fun c => task_name c.1) l.

Definition execute (t : Task) (args : A) (s : S) : Run :=
  execute_calls (closure t args) (start s).
End Resolver.

Arguments MkTask {S E A} name pre body.
Arguments task_name {S E A} t.
Arguments task_pre {S E A} t.
Arguments task_body {S E A} t.
Arguments MkRun {S E} run_state run_executed run_failure.
Arguments run_state {S E} r.
Arguments run_executed {S E} r.
Arguments run_failure {S E} r.
Arguments start {S E} s.
Arguments run_call {S E A} t args r.
Arguments walk {S E A} no_args t args r.
Arguments resolve_and_run {S E A} no_args t args s.
Arguments run_calls {S E A} l r.
Arguments expand_calls {S E A} t.
Arguments calls_of {S E A} no_args t args.
Arguments dedupe_from {S E A} seen l.
Arguments dedupe {S E A} l.
Arguments execute_calls {S E A} l r.
Arguments closure {S E A} no_args t args.
Arguments call_names {S E A} l.
Arguments execute {S E A} no_args t args s.

(** ** Paths and the filesystem collaborator *)

(** A [pathlib.Path], as the list of its components from the root. *)
Abbreviation Path := (list string).

(** [p / c] *)
Definition path_div (p : Path) (c : string) : Path := p ++ [c].
Notation "p // c" := (path_div p c) (at level 40, left associativity).

(** [p.parent] and [p.name] *)
Definition parent (p : Path) : Path := removelast p.
Definition path_name (p : Path) : string := default "" (last p).

(** [s.endswith(suffix)]: some tail of [s] is [suffix]. *)
Fixpoint endswith (s suffix : string) : bool :=
  if bool_decide (s = suffix) then true
  else match s with
       | EmptyString => false
       | String _ s' => endswith s' suffix
       end.

Inductive Kind : Type := File | Dir.

#[global] Instance Kind_eq_dec : EqDecision Kind.
Proof. solve_decision. Defined.

(** A directory entry. [e_locked] marks an entry that cannot be removed
    (no permission, in use): the way a deletion goes wrong. *)
Record Entry : Type := MkEntry {
  e_path : Path;
  e_kind : Kind;
  e_locked : bool
}.

(** The filesystem: its entries, in directory-listing order. *)
Abbreviation FS := (list Entry).

Definition fs_exists (p : Path) (fs : FS) : bool :=
  bool_decide (Exists (fun e => e_path e = p) fs).

Definition fs_is_dir (p : Path) (fs : FS) : bool :=
  bool_decide (Exists (fun e => e_path e = p /\ e_kind e = Dir) fs).

(** [root.rglob(name)]: every entry below [root] whose last component is
    [name]. *)
Definition fs_rglob (root : Path) (name : string) (fs : FS) : list Path :=
  e_path <$> filter (fun e => root `prefix_of` parent (e_path e)
                              /\ last (e_path e) = Some name) fs.

(** [dir.glob("*" + suffix)]: the entries directly in [dir] whose name ends
    with [suffix], whatever their kind. *)
Definition fs_glob (dir : Path) (suffix : string) (fs : FS) : list Path :=
  e_path <$> filter (fun e => parent (e_path e) = dir /\ e_path e <> []
                              /\ endswith (path_name (e_path e)) suffix = true) fs.

(** An entry resists deletion when it is locked or holds a locked entry. *)
Definition blocked (fs : FS) (e : Entry) : Prop :=
  Exists (fun e' => e_locked e' = true /\ e_path e `prefix_of` e_path e') fs.

#[global] Instance blocked_dec fs e : Decision (blocked fs e).
Proof. unfold blocked. apply _. Defined.

(** The exceptions that reach a task's caller. *)
Inductive Failure : Type :=
| RuntimeError (msg : string)
| CommandFailed (command : string) (code : Z)
| FileExistsError (p : Path)
| FileNotFoundError (p : Path)
| NotADirectoryError (p : Path)
| PermissionError (p : Path).

(** [shutil.rmtree(p)] before [ignore_errors] is looked at: what is left of
    the filesystem and the error met, if any. Everything below [p] that does
    not resist is removed. *)
Definition rmtree_raw (p : Path) (fs : FS) : FS * option Failure :=
  if fs_is_dir p fs then
    let fs' := filter (fun e => ~ (p `prefix_of` e_path e) \/ blocked fs e) fs in
    (fs', if fs_exists p fs' then Some (PermissionError p) else None)
  else if fs_exists p fs then (fs, Some (NotADirectoryError p))
  else (fs, Some (FileNotFoundError p)).

(** [p.mkdir(exist_ok=...)] (with [parents=False]). *)
Definition mkdir_raw (p : Path) (exist_ok : bool) (fs : FS) : FS * option Failure :=
  if fs_exists p fs then
    if exist_ok && fs_is_dir p fs then (fs, None)
    else (fs, Some (FileExistsError p))
  else if fs_is_dir (parent p) fs then
    (fs ++ [MkEntry p Dir false], None)
  else if fs_exists (parent p) fs then (fs, Some (NotADirectoryError p))
  else (fs, Some (FileNotFoundError p)).

(** ** The invocation context *)

(** One external command, as handed to the operating system. [cmd_cwd] is
    the innermost directory scope at the time of the call ([None]: the
    ambient working directory); [cmd_env] is the environment overlay. *)
Record Command : Type := MkCommand {
  cmd_line : string;
  cmd_cwd : option string;
  cmd_env : gmap string string
}.

(** The world of an invocation. *)
Record State : Type := MkState {
  fs : FS;
  environ : gmap string string;
  cwd_stack : list string;
  issued : list Command;
  stdout : list string
}.

Abbreviation Task' := (Task State Failure (gmap string string)).
Abbreviation T X := (M State Failure X).

Definition set_fs (f : FS) (s : State) : State :=
  MkState f (environ s) (cwd_stack s) (issued s) (stdout s).
Definition set_cwd_stack (l : list string) (s : State) : State :=
  MkState (fs s) (environ s) l (issued s) (stdout s).

Definition print (line : string) : T unit :=
  fun s => (MkState (fs s) (environ s) (cwd_stack s) (issued s) (stdout s ++ [line]),
            Returned tt).

(** [os.getenv(name)] *)
Definition getenv (name : string) : T (option string) :=
  fun s => (s, Returned (environ s !! name)).

Definition path_exists (p : Path) : T bool :=
  fun s => (s, Returned (fs_exists p (fs s))).
Definition is_dir (p : Path) : T bool :=
  fun s => (s, Returned (fs_is_dir p (fs s))).
Definition rglob (root : Path) (name : string) : T (list Path) :=
  fun s => (s, Returned (fs_rglob root name (fs s))).
Definition glob (dir : Path) (suffix : string) : T (list Path) :=
  fun s => (s, Returned (fs_glob dir suffix (fs s))).

(** [shutil.rmtree(p, ignore_errors=...)] *)
Definition rmtree (p : Path) (ignore_errors : bool) : T unit :=
  fun s =>
    match rmtree_raw p (fs s) with
    | (fs', None) => (set_fs fs' s, Returned tt)
    | (fs', Some e) =>
        if ignore_errors then (set_fs fs' s, Returned tt)
        else (set_fs fs' s, Raised e)
    end.

Definition mkdir (p : Path) (exist_ok : bool) : T unit :=
  fun s =>
    match mkdir_raw p exist_ok (fs s) with
    | (fs', None) => (set_fs fs' s, Returned tt)
    | (fs', Some e) => (set_fs fs' s, Raised e)
    end.

(** Modelled from the spec: the directory scope [with c.cd(d): body] of the
    runner's context. Entering pushes [d]; the previous directory is
    restored on every exit path, whether [body] returned or raised. *)
Definition cd {X} (d : string) (body : T X) : T X :=
  fun s =>
    match body (set_cwd_stack (cwd_stack s ++ [d]) s) with
    | (s', o) => (set_cwd_stack (removelast (cwd_stack s')) s', o)
    end.

(** ** The task bodies of [tasks.py] *)

(** The double quote character of the f-strings. *)
Definition dquote : string := String (Ascii.ascii_of_nat 34) EmptyString.

Definition quoted (s : string) : string := dquote +:+ s +:+ dquote.

Section Tasks.
(** [Path(__file__).parent] *)
Variable repo_dir : Path.
(** [str(path)], which depends on the platform. *)
Variable str : Path -> string.
(** The external toolchain: given the command and the environment it
    sees, it may change the filesystem and returns an exit status. *)
Variable spawn : Command -> gmap string string -> FS -> FS * Z.
(** Modelled from the spec: the Command Executor [c.run(command, env=env)].
    It spawns exactly one process, in the innermost directory scope, with
    the overlay merged on top of the ambient environment (overlay keys
    win), and signals [CommandFailed] with the command string and the
    exit code when the status is not zero. The ambient environment
    itself is left as it was. *)
Definition run (command : string) (env : gmap string string) : T unit :=
  fun s =>
    let c := MkCommand command (last (cwd_stack s)) env in
    match spawn c (env ∪ environ s) (fs s) with
    | (fs', code) =>
        let s' := MkState fs' (environ s) (cwd_stack s) (issued s ++ [c]) (stdout s) in
        if bool_decide (code = 0%Z) then (s', Returned tt)
        else (s', Raised (CommandFailed command code))
    end.

Definition build : T unit :=
  let realtimelog_dir := repo_dir // "src" // "TestRift.NUnit" in
  let example_dir := repo_dir // "Example" in
  print "Building TestRift.NUnit library..." ;;;
  cd (str realtimelog_dir) (run "dotnet build" ∅) ;;;
  print "Building Example tests..." ;;;
  cd (str example_dir) (run "dotnet build" ∅).

Definition clean : T unit :=
  bins <- rglob repo_dir "bin" ;;
  for_each bins (fun p => d <- is_dir p ;; when d (rmtree p true)) ;;;
  objs <- rglob repo_dir "obj" ;;
  for_each objs (fun p => d <- is_dir p ;; when d (rmtree p true)) ;;;
  let artifacts := repo_dir // "artifacts" in
  ex <- path_exists artifacts ;;
  when ex (rmtree artifacts true).

Definition pack_command (configuration : string) : string :=
  "dotnet pack -c " +:+ configuration +:+ " -o ..\..\artifacts".

Definition pack (configuration : string) : T unit :=
  let proj_dir := repo_dir // "src" // "TestRift.NUnit" in
  let out_dir := repo_dir // "artifacts" in
  mkdir out_dir true ;;;
  cd (str proj_dir) (run (pack_command configuration) ∅).

Definition push_command (pkg : Path) (api_key source : string) : string :=
  "dotnet nuget push " +:+ quoted (str pkg) +:+ " --api-key " +:+ quoted api_key
    +:+ " --source " +:+ quoted source +:+ " --skip-duplicate".

Definition missing_key : Failure :=
  RuntimeError "Missing NuGet API key. Pass --api-key or set NUGET_API_KEY.".

Definition publish (source : string) (api_key : option string) : T unit :=
  api_key <- match api_key with
             | None => getenv "NUGET_API_KEY"
             | Some k => ret (Some k)
             end ;;
  match api_key with
  | None => raise missing_key
  | Some key =>
      if bool_decide (key = "") then raise missing_key
      else
        let artifacts_dir := repo_dir // "artifacts" in
        pkgs <- glob artifacts_dir ".nupkg" ;;
        for_each pkgs (fun pkg =>
          if endswith (path_name pkg) ".snupkg" then ret tt
          else run (push_command pkg key source) ∅)
  end.

Definition restore_command (proj : Path) : string :=
  "dotnet restore " +:+ quoted (str proj) +:+ " --force".

Definition restore_local : T unit :=
  let server_nuget_dir :=
    parent repo_dir // "testrift-server" // "nuget" // "TestRift.Server" // "bin" // "Release" in
  ex <- path_exists server_nuget_dir ;;
  if negb ex then
    print ("ERROR: Local TestRift.Server package not found at: " +:+ str server_nuget_dir) ;;;
    print "Run 'inv build-nuget' in testrift-server directory first."
  else
    let projects := [
      repo_dir // "Example" // "ExampleTests.csproj";
      repo_dir // "tests" // "TestRift.NUnit.Tests" // "TestRift.NUnit.Tests.csproj";
      repo_dir // "tests" // "TestRift.NUnit.Tests.MaxVersions"
               // "TestRift.NUnit.Tests.MaxVersions.csproj";
      repo_dir // "tests" // "TestRift.NUnit.Integration.Tests"
               // "TestRift.NUnit.Integration.Tests.csproj" ] in
    print ("Using local TestRift.Server feed: " +:+ str server_nuget_dir) ;;;
    for_each projects (fun proj =>
      print (String (Ascii.ascii_of_nat 10) "Restoring "
               +:+ path_name (parent proj) +:+ "...") ;;;
      run (restore_command proj) ∅).

Definition example_env (server_url : string) : gmap string string :=
  {[ "TEST_LOG_SERVER_URL" := server_url; "TEST_DUT_NAME" := "INVOKE-TEST" ]}.

Definition example_command (filter : option string) : string :=
  let cmd := "dotnet test --logger console;verbosity=normal" in
  match filter with
  | None => cmd
  | Some f => if bool_decide (f = "") then cmd else cmd +:+ " --filter " +:+ f
  end.

Definition run_example (filter : option string) (server_url : string) : T unit :=
  let example_dir := repo_dir // "Example" in
  let env := example_env server_url in
  let cmd := example_command filter in
  print ("Running example tests (server: " +:+ server_url +:+ ")...") ;;;
  cd (str example_dir) (run cmd env).

(** The decorated tasks: the keyword arguments given at the call, the
    declared default where one is missing. *)
Definition build_task : Task' := MkTask "build" [] (fun _ => build).
Definition clean_task : Task' := MkTask "clean" [] (fun _ => clean).
Definition pack_task : Task' :=
  MkTask "pack" [clean_task]
    (fun kw => pack (default "Release" (kw !! "configuration"))).
Definition publish_task : Task' :=
  MkTask "publish" [pack_task]
    (fun kw => publish (default "https://api.nuget.org/v3/index.json" (kw !! "source"))
                       (kw !! "api_key")).
Definition restore_local_task : Task' :=
  MkTask "restore_local" [] (fun _ => restore_local).
Definition run_example_task : Task' :=
  MkTask "run_example" []
    (fun kw => run_example (kw !! "filter")
                           (default "http://localhost:8080" (kw !! "server_url"))).

(** A top-level invocation from the entry point. *)
Definition invoke (t : Task') (kwargs : gmap string string) (s : State) : Run State Failure :=
  resolve_and_run ∅ t kwargs s.
End Tasks.

(** ** The namespace registry *)

Module Registry.
Inductive Error : Type :=
| DuplicateTaskName (name : string)
| UnknownTask (name : string).

(** Modelled from the spec: the Namespace Registry (the runner's
    [Collection], absent from the sources): a mapping from qualified name
    to task and a mapping from prefix to the embedded sub-registry. *)
Record t : Type := Make {
  tasks : gmap string Task';
  collections : gmap string (gmap string Task')
}.

Definition empty : t := Make ∅ ∅.

Definition and_then {X Y} (r : Error + X) (k : X -> Error + Y) : Error + Y :=
  match r with
  | inl e => inl e
  | inr x => k x
  end.

(** Modelled from the spec: [register] fails with [DuplicateTaskName] if
    the name already exists at that level. *)
Definition register (task : Task') (r : t) : Error + t :=
  match tasks r !! task_name task with
  | Some _ => inl (DuplicateTaskName (task_name task))
  | None => inr (Make (<[task_name task := task]> (tasks r)) (collections r))
  end.

(** The qualified name: prefix, separator, name. *)
Definition qualify (prefix name : string) : string := prefix +:+ "." +:+ name.

(** Modelled from the spec: [merge] qualifies every task of the
    sub-registry with the prefix and fails with [DuplicateTaskName] on any
    resulting collision. *)
Definition merge (prefix : string) (sub : gmap string Task') (r : t) : Error + t :=
  match filter (fun kv => is_Some (tasks r !! qualify prefix kv.1)) (map_to_list sub) with
  | kv :: _ => inl (DuplicateTaskName (qualify prefix kv.1))
  | [] =>
      match collections r !! prefix with
      | Some _ => inl (DuplicateTaskName prefix)
      | None =>
          inr (Make (kmap (qualify prefix) sub ∪ tasks r)
                    (<[prefix := sub]> (collections r)))
      end
  end.

(** Modelled from the spec: [lookup] is exact match and fails with
    [UnknownTask] if the qualified name is not present. *)
Definition lookup (qualified_name : string) (r : t) : Error + Task' :=
  match tasks r !! qualified_name with
  | Some task => inr task
  | None => inl (UnknownTask qualified_name)
  end.
End Registry.

Section Namespace.
Variable repo_dir : Path.
Variable str : Path -> string.
Variable spawn : Command -> gmap string string -> FS -> FS * Z.
(** The task collection of [tests/tasks.py], as
    [Collection.from_module] finds it. *)
Variable test_tasks_module : gmap string Task'.

(** The namespace configured at the end of [tasks.py]. *)
Definition ns : Registry.Error + Registry.t :=
  Registry.and_then (Registry.register (build_task repo_dir str spawn) Registry.empty) (fun r =>
  Registry.and_then (Registry.register (clean_task repo_dir) r) (fun r =>
  Registry.and_then (Registry.register (pack_task repo_dir str spawn) r) (fun r =>
  Registry.and_then (Registry.register (publish_task repo_dir str spawn) r) (fun r =>
  Registry.and_then (Registry.register (restore_local_task repo_dir str spawn) r) (fun r =>
  Registry.and_then (Registry.register (run_example_task repo_dir str spawn) r) (fun r =>
  Registry.merge "test" test_tasks_module r)))))).
End Namespace.


(** ** Vocabulary of the statements *)

(** [sub in s] *)
Fixpoint contains (s sub : string) : bool :=
  if String.prefix sub s then true
  else match s with
       | EmptyString => false
       | String _ s' => contains s' sub
       end.

(** From [s] to [s'] nothing but the filesystem has changed: no command was
    issued, nothing was printed, the directory stack and the environment
    are as before. *)
Definition only_fs_changed (s s' : State) : Prop :=
  environ s' = environ s /\ cwd_stack s' = cwd_stack s
  /\ issued s' = issued s /\ stdout s' = stdout s.

(** ... and the filesystem has only lost entries. *)
Definition shrinks (s s' : State) : Prop :=
  only_fs_changed s s' /\ fs s' `sublist_of` fs s.

(** A computation that leaves the directory stack and the ambient
    environment as it found them, on every exit path. *)
Definition scoped {X} (m : T X) : Prop :=
  forall s, cwd_stack (m s).1 = cwd_stack s /\ environ (m s).1 = environ s.

(** A command that pushes a package. *)
Definition is_push (c : Command) : bool := String.prefix "dotnet nuget push" (cmd_line c).


(** The filesystem after the toolchain has run the commands [cmds] one
    after the other, each in the environment [env]. *)
Definition spawned (spawn : Command -> gmap string string -> FS -> FS * Z)
    (env : gmap string string) (cmds : list Command) (fs : FS) : FS :=
  fold_left (fun fs c => (spawn c env fs).1) cmds fs.

(** Modelled from the spec: the entry point of the control flow of section
    2 (the command-line front end of the runner, absent from the sources):
    the registry looks the qualified name up and the resolver runs the task
    found, with the arguments given. *)
Definition invoke_by_name (r : Registry.t) (qualified_name : string)
    (kwargs : gmap string string) (s : State) : Registry.Error + Run State Failure :=
  match Registry.lookup qualified_name r with
  | inl e => inl e
  | inr task => inr (invoke task kwargs s)
  end.
(** ** Example inputs *)

(** A diamond of tasks over a world that logs the bodies run: [top] needs
    [left] and [right], which both need [base]. The body named in [failing]
    raises. *)
Module Diamond.
Definition body (failing : string) (name : string) : unit -> M (list string) string unit :=
  fun _ log =>
    (log ++ [name],
     if bool_decide (name = failing) then Raised ("failed: " +:+ name) else Returned tt).

Definition base f : Task (list string) string unit := MkTask "base" [] (body f "base").
Definition left f : Task (list string) string unit := MkTask "left" [base f] (body f "left").
Definition right f : Task (list string) string unit := MkTask "right" [base f] (body f "right").
Definition top f : Task (list string) string unit :=
  MkTask "top" [left f; right f] (body f "top").
End Diamond.

(** A small POSIX world. *)
Module Demo.
Definition repo : Path := ["work"; "testrift-nunit"].

Definition posix (p : Path) : string := "/" +:+ String.concat "/" p.

Definition artifacts : Path := repo // "artifacts".

Definition tree : FS := [
  MkEntry ["work"] Dir false;
  MkEntry repo Dir false;
  MkEntry (repo // "src") Dir false;
  MkEntry (repo // "src" // "TestRift.NUnit") Dir false;
  MkEntry (repo // "src" // "TestRift.NUnit" // "bin") Dir false;
  MkEntry (repo // "src" // "TestRift.NUnit" // "bin" // "TestRift.NUnit.dll") File false;
  MkEntry (repo // "src" // "TestRift.NUnit" // "obj") Dir false;
  MkEntry (repo // "src" // "TestRift.NUnit" // "obj" // "project.assets.json") File true;
  MkEntry artifacts Dir false;
  MkEntry (artifacts // "Foo.1.0.0.nupkg") File false;
  MkEntry (artifacts // "Foo.1.0.0.snupkg") File false
].

Definition world (env : gmap string string) : State := MkState tree env [] [] [].

(** A toolchain that always succeeds; [dotnet pack] writes the package
    and the symbol package into [artifacts]. *)
Definition toolchain (c : Command) (env : gmap string string) (fs : FS) : FS * Z :=
  if String.prefix "dotnet pack" (cmd_line c) then
    (fs ++ [MkEntry (artifacts // "TestRift.NUnit.2.0.0.nupkg") File false;
            MkEntry (artifacts // "TestRift.NUnit.2.0.0.snupkg") File false], 0%Z)
  else (fs, 0%Z).

(** A toolchain whose every command exits with status 1. *)
Definition broken (c : Command) (env : gmap string string) (fs : FS) : FS * Z :=
  (fs, 1%Z).
End Demo.

(** A stand-in for the tasks of [tests/tasks.py]: one task, [unit], whose
    body runs the unit tests. *)
Module TestModule.
Definition unit_task : Task' :=
  MkTask "unit" [] (fun _ => run Demo.toolchain "dotnet test" ∅).

Definition tasks : gmap string Task' := {[ "unit" := unit_task ]}.
End TestModule.

(** Further worlds and toolchains. *)
Module Hostile.
(** A toolchain that exits with status zero and removes [artifacts] with
    all that is in it. *)
Definition wipes (c : Command) (env : gmap string string) (fs : FS) : FS * Z :=
  (filter (fun e => ~ (Demo.artifacts `prefix_of` e_path e)) fs, 0%Z).

(** A tree with two packages in [artifacts]. *)
Definition two_packages : FS := [
  MkEntry ["work"] Dir false;
  MkEntry Demo.repo Dir false;
  MkEntry Demo.artifacts Dir false;
  MkEntry (Demo.artifacts // "A.1.0.0.nupkg") File false;
  MkEntry (Demo.artifacts // "B.1.0.0.nupkg") File false
].

(** A toolchain on which the push of [B] exits with status 7 and every
    other command with zero. *)
Definition rejects_b (c : Command) (env : gmap string string) (fs : FS) : FS * Z :=
  (fs, if contains (cmd_line c) "B.1.0.0.nupkg" then 7%Z else 0%Z).
End Hostile.

(** ** Vocabulary of the further properties *)

(** The key [publish] ends up with: the explicit one, else the one of the
    environment. *)
Definition effective_key (api_key : option string) (s : State) : option string :=
  match api_key with
  | None => environ s !! "NUGET_API_KEY"
  | Some k => Some k
  end.

(** A toolchain that leaves the filesystem alone. *)
Definition inert (spawn : Command -> gmap string string -> FS -> FS * Z) : Prop :=
  forall c env fs, (spawn c env fs).1 = fs.

(** A computation that does not change the filesystem. *)
Definition keeps_fs {X} (m : T X) : Prop := forall s, fs (m s).1 = fs s.

(** The [projects] of [restore_local]. *)
Definition restore_projects (repo_dir : Path) : list Path :=
  [ repo_dir // "Example" // "ExampleTests.csproj";
    repo_dir // "tests" // "TestRift.NUnit.Tests" // "TestRift.NUnit.Tests.csproj";
    repo_dir // "tests" // "TestRift.NUnit.Tests.MaxVersions"
             // "TestRift.NUnit.Tests.MaxVersions.csproj";
    repo_dir // "tests" // "TestRift.NUnit.Integration.Tests"
             // "TestRift.NUnit.Integration.Tests.csproj" ].

(** The line [restore_local] prints before it restores [proj]. *)
Definition restoring_line (proj : Path) : string :=
  String (Ascii.ascii_of_nat 10) "Restoring " +:+ path_name (parent proj) +:+ "...".

(** The paths [clean] calls [rmtree] on: the entries named [bin] or [obj]
    below the repository, and [artifacts]. *)
Definition clean_target (repo_dir p : Path) : Prop :=
  (repo_dir `prefix_of` parent p /\ (last p = Some "bin" \/ last p = Some "obj"))
  \/ p = repo_dir // "artifacts".

(** What a removal that ignores its errors leaves of the filesystem. *)
Definition remove_tree (p : Path) (fs : FS) : FS :=
  if fs_is_dir p fs then filter (fun e => ~ (p `prefix_of` e_path e) \/ blocked fs e) fs
  else fs.

Definition remove_trees (l : list Path) (fs : FS) : FS :=
  fold_left (fun fs p => remove_tree p fs) l fs.

(** What [clean] leaves of the filesystem. *)
Definition clean_fs (repo_dir : Path) (fs : FS) : FS :=
  let fs1 := remove_trees (fs_rglob repo_dir "bin" fs) fs in
  let fs2 := remove_trees (fs_rglob repo_dir "obj" fs1) fs1 in
  remove_tree (repo_dir // "artifacts") fs2.

#[global] Instance Entry_eq_dec : EqDecision Entry.
Proof. solve_decision. Defined.

(** Variants of the example world. *)
Module DemoVariants.
(** The example tree with every lock taken off. *)
Definition unlocked : FS :=
  map (fun e => MkEntry (e_path e) (e_kind e) false) Demo.tree.

(** A tree in which [artifacts] is a regular file. *)
Definition artifacts_file : FS := [
  MkEntry ["work"] Dir false;
  MkEntry Demo.repo Dir false;
  MkEntry Demo.artifacts File false
].

(** A tree with the local server package in place. *)
Definition with_feed : FS :=
  Demo.tree
    ++ [MkEntry (parent Demo.repo // "testrift-server" // "nuget" // "TestRift.Server"
                   // "bin" // "Release") Dir false].

(** A toolchain on which the third command fails. *)
Definition fails_on (line : string) (c : Command) (env : gmap string string) (fs : FS)
    : FS * Z :=
  (fs, if bool_decide (cmd_line c = line) then 3%Z else 0%Z).
End DemoVariants.

(** * Proofs *)

(** ** First occurrences *)

Lemma first_occurrences_fresh seen l x :
  x ∈ first_occurrences seen l -> x ∉ seen.
Proof.
  revert seen. induction l as [|n l IH]; intros seen; simpl.
  - by intros ?%elem_of_nil.
  - case_bool_decide as Hn.
    + apply IH.
    + intros [->|Hx]%elem_of_cons; [done|].
      apply IH in Hx. set_solver.
Qed.

Lemma first_occurrences_NoDup seen l : NoDup (first_occurrences seen l).
Proof.
  revert seen. induction l as [|n l IH]; intros seen; simpl.
  - constructor.
  - case_bool_decide as Hn; [apply IH|].
    constructor; [|apply IH].
    intros Hin%first_occurrences_fresh. set_solver.
Qed.

Lemma first_occurrences_complete seen l x :
  x ∈ l -> x ∈ seen \/ x ∈ first_occurrences seen l.
Proof.
  revert seen. induction l as [|n l IH]; intros seen; simpl.
  - by intros ?%elem_of_nil.
  - intros [->|Hx]%elem_of_cons.
    + case_bool_decide; [by left|right; set_solver].
    + case_bool_decide; [by apply IH|].
      destruct (IH (seen ++ [n]) Hx) as [Hs|Hf]; set_solver.
Qed.

Lemma first_occurrences_sound seen l x :
  x ∈ first_occurrences seen l -> x ∈ l.
Proof.
  revert seen. induction l as [|n l IH]; intros seen; simpl.
  - done.
  - case_bool_decide.
    + intros ?%IH. set_solver.
    + intros [->|?%IH]%elem_of_cons; set_solver.
Qed.

Lemma first_occurrences_app seen l1 l2 :
  first_occurrences seen (l1 ++ l2)
  = first_occurrences seen l1
      ++ first_occurrences (seen ++ first_occurrences seen l1) l2.
Proof.
  revert seen. induction l1 as [|n l1 IH]; intros seen; simpl.
  - by rewrite app_nil_r.
  - case_bool_decide; [apply IH|].
    rewrite IH. simpl. by rewrite <- app_assoc.
Qed.

(** Only the set of names seen matters. *)
Lemma first_occurrences_ext seen seen' l :
  (forall x, x ∈ seen <-> x ∈ seen') ->
  first_occurrences seen l = first_occurrences seen' l.
Proof.
  revert seen seen'. induction l as [|n l IH]; intros seen seen' Heq; simpl; [done|].
  rewrite (bool_decide_ext (n ∈ seen) (n ∈ seen')) by apply Heq.
  case_bool_decide; [by apply IH|].
  f_equal. apply IH. intros x. rewrite !elem_of_app. by rewrite Heq.
Qed.

(** Removing repetitions first changes nothing. *)
Lemma first_occurrences_idemp seen0 seen l :
  seen0 ⊆ seen ->
  first_occurrences seen (first_occurrences seen0 l) = first_occurrences seen l.
Proof.
  revert seen0 seen. induction l as [|n l IH]; intros seen0 seen Hsub; simpl; [done|].
  destruct (decide (n ∈ seen0)) as [Hn0|Hn0].
  - rewrite !bool_decide_eq_true_2; [by apply IH|by apply Hsub|done].
  - rewrite (bool_decide_eq_false_2 (n ∈ seen0)) by done. simpl.
    case_bool_decide as Hn.
    + apply IH. set_solver.
    + f_equal. apply IH. set_solver.
Qed.

Lemma first_occurrences_app_idemp seen l1 l2 :
  first_occurrences seen (first_occurrences [] l1 ++ l2)
  = first_occurrences seen (l1 ++ l2).
Proof.
  rewrite !first_occurrences_app.
  rewrite first_occurrences_idemp by set_solver. done.
Qed.

Lemma first_occurrences_flat_map_idemp {X} (f : X -> list string) seen ps l2 :
  first_occurrences seen (flat_map (fun p => first_occurrences [] (f p)) ps ++ l2)
  = first_occurrences seen (flat_map f ps ++ l2).
Proof.
  revert seen. induction ps as [|p ps IH]; intros seen; simpl; [done|].
  rewrite <- !app_assoc. rewrite first_occurrences_app_idemp.
  rewrite !(first_occurrences_app seen (f p)). by rewrite IH.
Qed.

(** ** The resolver *)

Section ResolverFacts.
Context {S E A : Type}.
Variable no_args : A.
Implicit Types (t p : Task S E A) (r : Run S E) (l : list (Task S E A * A)).

(** Induction on a task with the hypothesis for all its prerequisites. *)
Lemma Task_ind_pre (P : Task S E A -> Prop) :
  (forall n ps b, Forall P ps -> P (MkTask n ps b)) -> forall t, P t.
Proof.
  intros H. fix IH 1. intros [n ps b]. apply H.
  induction ps as [|p ps IHps]; constructor; [apply IH|apply IHps].
Qed.

Lemma walk_unfold t args r :
  walk no_args t args r
  = run_call t args (fold_left (fun r p => walk no_args p no_args r) (task_pre t) r).
Proof.
  destruct t as [n ps b]. reflexivity.
Qed.

Lemma expand_calls_unfold t :
  expand_calls t = flat_map expand_calls (task_pre t) ++ [t].
Proof.
  destruct t as [n ps b]. reflexivity.
Qed.

Lemma run_calls_app l1 l2 r :
  run_calls (l1 ++ l2) r = run_calls l2 (run_calls l1 r).
Proof. apply fold_left_app. Qed.

Lemma calls_of_expand t :
  calls_of no_args t no_args = map (fun p => (p, no_args)) (expand_calls t).
Proof. unfold calls_of. by rewrite expand_calls_unfold, map_app. Qed.

(** The walk runs the expanded calls in order. *)
Lemma walk_run_calls t args r :
  walk no_args t args r = run_calls (calls_of no_args t args) r.
Proof.
  revert args r. induction t as [n ps b IH] using Task_ind_pre; intros args r.
  rewrite walk_unfold. unfold calls_of. rewrite run_calls_app. simpl. f_equal.
  revert r. induction IH as [|p ps Hp _ IHps]; intros r; simpl; [done|].
  rewrite map_app, run_calls_app, <- calls_of_expand, <- Hp. apply IHps.
Qed.

Lemma run_calls_failed l r e : run_failure r = Some e -> run_calls l r = r.
Proof.
  intros Hr. induction l as [|c l IH]; [done|].
  change (run_calls (c :: l) r) with (run_calls l (run_call c.1 c.2 r)).
  unfold run_call. by rewrite Hr.
Qed.

Lemma execute_calls_failed l r e : run_failure r = Some e -> execute_calls l r = r.
Proof. intros Hr. destruct l; simpl; [done|by rewrite Hr]. Qed.

(** Skipping at run time is removing repeated calls beforehand. *)
Lemma run_calls_execute l r :
  run_calls l r = execute_calls (dedupe_from (run_executed r) l) r.
Proof.
  revert r. induction l as [|c l IH]; intros r; [done|].
  change (run_calls (c :: l) r) with (run_calls l (run_call c.1 c.2 r)).
  destruct (run_failure r) as [e|] eqn:Hr.
  { unfold run_call. rewrite Hr.
    rewrite (run_calls_failed l r e Hr). symmetry. by eapply execute_calls_failed. }
  unfold run_call. rewrite Hr. simpl.
  case_bool_decide as Hin; [apply IH|].
  simpl. rewrite Hr.
  destruct (task_body c.1 c.2 (run_state r)) as [s' [e|x]].
  - by erewrite run_calls_failed.
  - by rewrite IH.
Qed.

(** The walk is the three-phase pipeline. *)
Lemma resolve_and_run_execute t args s :
  resolve_and_run no_args t args s = execute no_args t args s.
Proof.
  unfold resolve_and_run, execute, closure, dedupe.
  by rewrite walk_run_calls, run_calls_execute.
Qed.

Lemma call_names_dedupe_from seen l :
  call_names (dedupe_from seen l) = first_occurrences seen (call_names l).
Proof.
  revert seen. induction l as [|c l IH]; intros seen; simpl; [done|].
  case_bool_decide; [apply IH|]. simpl. by rewrite IH.
Qed.

Lemma call_names_app l1 l2 : call_names (l1 ++ l2) = call_names l1 ++ call_names l2.
Proof. apply map_app. Qed.

(** What a fail-fast execution of a list of calls amounts to: all of it
    ran, or it stopped at the first call whose body raised. *)
Lemma execute_calls_spec l r :
  run_failure r = None ->
  (run_failure (execute_calls l r) = None
   /\ run_executed (execute_calls l r) = run_executed r ++ call_names l)
  \/ (exists l1 c l2 s0 e,
        l = l1 ++ c :: l2
        /\ execute_calls l1 r = MkRun s0 (run_executed r ++ call_names l1) None
        /\ task_body c.1 c.2 s0 = (run_state (execute_calls l r), Raised e)
        /\ run_failure (execute_calls l r) = Some e
        /\ run_executed (execute_calls l r)
           = run_executed r ++ call_names l1 ++ [task_name c.1]).
Proof.
  revert r. induction l as [|c l IH]; intros r Hr; simpl.
  - left. by rewrite app_nil_r.
  - rewrite Hr. destruct (task_body c.1 c.2 (run_state r)) as [s' [e|x]] eqn:Hb.
    + right. exists [], c, l, (run_state r), e. simpl.
      rewrite app_nil_r. destruct r; simpl in *; subst. done.
    + set (r' := MkRun s' (run_executed r ++ [task_name c.1]) None).
      destruct (IH r' eq_refl) as [[Hf Hx]|(l1 & c' & l2 & s0 & e & -> & H1 & H2 & H3 & H4)].
      * left. split; [done|]. rewrite Hx. simpl. by rewrite <- app_assoc.
      * right. exists (c :: l1), c', l2, s0, e. simpl. rewrite Hr, Hb.
        fold r'. split; [done|]. split.
        { rewrite H1. simpl. by rewrite <- app_assoc. }
        split; [done|]. split; [done|].
        rewrite H4. simpl. by rewrite <- !app_assoc.
Qed.
End ResolverFacts.

Section ResolverOrder.
Context {S E A : Type}.
Variable no_args : A.
Implicit Types (t p : Task S E A) (r : Run S E) (l : list (Task S E A * A)).

Lemma call_names_calls_of t args :
  call_names (calls_of no_args t args) = map task_name (expand_calls t).
Proof.
  unfold calls_of, call_names.
  rewrite expand_calls_unfold, !map_app, map_map. done.
Qed.

Lemma closure_names t args :
  call_names (closure no_args t args)
  = first_occurrences [] (map task_name (expand_calls t)).
Proof.
  unfold closure, dedupe. by rewrite call_names_dedupe_from, call_names_calls_of.
Qed.

(** Declared depth-first order: the closure of the first prerequisite,
    then what the second one adds, and so on, then the task itself. *)
Lemma closure_names_rec t args :
  call_names (closure no_args t args)
  = first_occurrences []
      (flat_map (fun p => call_names (closure no_args p no_args)) (task_pre t)
         ++ [task_name t]).
Proof.
  rewrite closure_names, expand_calls_unfold, map_app. simpl.
  rewrite (flat_map_ext (fun p => call_names (closure no_args p no_args))
             (fun p => first_occurrences [] (map task_name (expand_calls p))))
    by (intros; apply closure_names).
  rewrite (first_occurrences_flat_map_idemp (fun p => map task_name (expand_calls p))).
  f_equal. f_equal.
  induction (task_pre t) as [|p ps IH]; simpl; [done|].
  by rewrite map_app, IH.
Qed.

Lemma closure_names_last t args :
  task_name t ∉ map task_name (flat_map expand_calls (task_pre t)) ->
  call_names (closure no_args t args)
  = first_occurrences [] (map task_name (flat_map expand_calls (task_pre t)))
      ++ [task_name t].
Proof.
  intros Hfresh. rewrite closure_names, expand_calls_unfold, map_app.
  rewrite first_occurrences_app. f_equal. simpl.
  rewrite bool_decide_eq_false_2; [done|].
  simpl. by intros ?%first_occurrences_sound.
Qed.

Lemma executed_prefix t args s :
  run_executed (resolve_and_run no_args t args s)
    `prefix_of` call_names (closure no_args t args).
Proof.
  rewrite resolve_and_run_execute. unfold execute.
  destruct (execute_calls_spec (closure no_args t args) (start s) eq_refl)
    as [[_ ->]|(l1 & c & l2 & s0 & e & -> & _ & _ & _ & ->)]; simpl.
  - done.
  - rewrite !call_names_app. simpl. apply prefix_app, prefix_cons, prefix_nil.
Qed.

Lemma executed_all t args s :
  run_failure (resolve_and_run no_args t args s) = None ->
  run_executed (resolve_and_run no_args t args s)
  = call_names (closure no_args t args).
Proof.
  rewrite resolve_and_run_execute. unfold execute.
  destruct (execute_calls_spec (closure no_args t args) (start s) eq_refl)
    as [[_ ->]|(l1 & c & l2 & s0 & e & _ & _ & _ & -> & _)]; [done|done].
Qed.
End ResolverOrder.

(** ** The monad *)

Lemma bind_returned {S E X Y} (m : M S E X) (k : X -> M S E Y) s s' x :
  m s = (s', Returned x) -> bind m k s = k x s'.
Proof. intros H. unfold bind. by rewrite H. Qed.

Lemma bind_raised {S E X Y} (m : M S E X) (k : X -> M S E Y) s s' e :
  m s = (s', Raised e) -> bind m k s = (s', Raised e).
Proof. intros H. unfold bind. by rewrite H. Qed.

(** A loop whose body always returns, returns; a preorder kept by the body
    is kept by the loop. *)
Lemma for_each_returns {X} (R : relation State) `{!PreOrder R}
    (l : list X) (body : X -> T unit) :
  (forall x s, exists s', body x s = (s', Returned tt) /\ R s s') ->
  forall s, exists s', for_each l body s = (s', Returned tt) /\ R s s'.
Proof.
  intros Hbody. induction l as [|x l IH]; intros s; simpl.
  - exists s. done.
  - destruct (Hbody x s) as (s1 & H1 & HR1).
    destruct (IH s1) as (s2 & H2 & HR2).
    exists s2. rewrite (bind_returned _ _ _ _ _ H1). split; [done|by etrans].
Qed.

#[local] Instance only_fs_changed_preorder : PreOrder only_fs_changed.
Proof.
  split.
  - by intros s.
  - intros s1 s2 s3 (?&?&?&?) (?&?&?&?). unfold only_fs_changed. by repeat split; etrans.
Qed.

#[local] Instance shrinks_preorder : PreOrder shrinks.
Proof.
  split.
  - intros s. split; reflexivity.
  - intros s1 s2 s3 [H1 S1] [H2 S2]. split; by etrans.
Qed.

(** ** The filesystem *)

Lemma rmtree_raw_sublist p fs : (rmtree_raw p fs).1 `sublist_of` fs.
Proof.
  unfold rmtree_raw. repeat case_match; simpl; try done; apply sublist_filter.
Qed.

(** With [ignore_errors=True] the removal returns, whatever it met. *)
Lemma rmtree_ignoring_errors p s :
  exists s', rmtree p true s = (s', Returned tt) /\ shrinks s s'.
Proof.
  unfold rmtree. pose proof (rmtree_raw_sublist p (fs s)) as Hsub.
  destruct (rmtree_raw p (fs s)) as [fs' [e|]]; eexists; (split; [done|]);
    by split.
Qed.

Lemma fs_is_dir_exists p fs : fs_is_dir p fs = true -> fs_exists p fs = true.
Proof.
  unfold fs_is_dir, fs_exists. intros H%bool_decide_eq_true.
  apply bool_decide_eq_true. eapply Exists_impl; [done|]. by intros e [? _].
Qed.

Lemma fs_is_dir_app p fs l : fs_is_dir p fs = true -> fs_is_dir p (fs ++ l) = true.
Proof.
  unfold fs_is_dir. intros H%bool_decide_eq_true.
  apply bool_decide_eq_true, Exists_app. by left.
Qed.

(** A successful [mkdir] leaves a directory behind. *)
Lemma mkdir_raw_is_dir p fs fs' :
  mkdir_raw p true fs = (fs', None) -> fs_is_dir p fs' = true.
Proof.
  unfold mkdir_raw. intros H.
  destruct (fs_exists p fs).
  - destruct (fs_is_dir p fs) eqn:Hd; simpl in H; [|done]. by simplify_eq.
  - repeat case_match; simplify_eq.
    unfold fs_is_dir. apply bool_decide_eq_true, Exists_app. right.
    by apply Exists_cons_hd.
Qed.

(** ** [endswith] and the two package extensions *)

Lemma endswith_nupkg_not_snupkg name :
  endswith name ".nupkg" = true -> endswith name ".snupkg" = false.
Proof.
  induction name as [|a name IH]; [done|].
  cbn [endswith]. intros H.
  destruct (decide (String a name = ".snupkg")) as [Hs|Hs].
  { injection Hs as -> ->. by vm_compute in H. }
  rewrite bool_decide_eq_false_2 by done.
  destruct (decide (String a name = ".nupkg")) as [Hn|Hn].
  { by injection Hn as -> ->. }
  rewrite bool_decide_eq_false_2 in H by done. by apply IH.
Qed.

(** ** Scopes *)

Lemma scoped_ret {X} (x : X) : scoped (ret x).
Proof. by intros s. Qed.

Lemma scoped_raise {X} (e : Failure) : scoped (raise (X:=X) e).
Proof. by intros s. Qed.

Lemma scoped_bind {X Y} (m : T X) (k : X -> T Y) :
  scoped m -> (forall x, scoped (k x)) -> scoped (bind m k).
Proof.
  intros Hm Hk s. unfold bind. specialize (Hm s).
  destruct (m s) as [s1 [e|x]]; [done|].
  specialize (Hk x s1). simpl in *. destruct Hk as [-> ->]. done.
Qed.

Lemma scoped_for_each {X} (l : list X) (body : X -> T unit) :
  (forall x, scoped (body x)) -> scoped (for_each l body).
Proof.
  intros Hbody. induction l as [|x l IH]; simpl.
  - apply scoped_ret.
  - apply scoped_bind; [apply Hbody|done].
Qed.

Lemma scoped_when b (m : T unit) : scoped m -> scoped (when b m).
Proof. destruct b; [done|intros _; apply scoped_ret]. Qed.

Lemma scoped_print line : scoped (print line).
Proof. by intros s. Qed.

Lemma scoped_getenv name : scoped (getenv name).
Proof. by intros s. Qed.

Lemma scoped_rmtree p b : scoped (rmtree p b).
Proof. intros s. unfold rmtree. by repeat case_match. Qed.

Lemma scoped_mkdir p b : scoped (mkdir p b).
Proof. intros s. unfold mkdir. by repeat case_match. Qed.

(** The directory scope restores the stack it found, whether its body
    returned or raised, when the body itself is scoped. *)
Lemma scoped_cd {X} d (body : T X) : scoped body -> scoped (cd d body).
Proof.
  intros Hbody s. unfold cd.
  specialize (Hbody (set_cwd_stack (cwd_stack s ++ [d]) s)).
  destruct (body _) as [s' o]. simpl in *. destruct Hbody as [-> ->].
  by rewrite removelast_last.
Qed.

Section TaskFacts.
Variable repo_dir : Path.
Variable str : Path -> string.
Variable spawn : Command -> gmap string string -> FS -> FS * Z.

(** One call of the executor: one process, one record, in the innermost
    scope and with the overlay of this call. *)
Lemma run_spec command env s :
  let c := MkCommand command (last (cwd_stack s)) env in
  let out := spawn c (env ∪ environ s) (fs s) in
  run spawn command env s
  = (MkState out.1 (environ s) (cwd_stack s) (issued s ++ [c]) (stdout s),
     if bool_decide (out.2 = 0%Z) then Returned tt
     else Raised (CommandFailed command out.2)).
Proof.
  intros c out. subst out. unfold run. fold c.
  destruct (spawn c (env ∪ environ s) (fs s)) as [fs' code]. simpl.
  by case_bool_decide.
Qed.

Lemma scoped_run command env : scoped (run spawn command env).
Proof. intros s. by rewrite run_spec. Qed.

Lemma scoped_build : scoped (build repo_dir str spawn).
Proof.
  unfold build. repeat (apply scoped_bind; [|intros _]);
    auto using scoped_print, scoped_cd, scoped_run.
Qed.

(** [build]: two scopes, one after the other; the second command is only
    reached when the first one succeeded. *)
Lemma build_spec s :
  let c1 := MkCommand "dotnet build" (Some (str (repo_dir // "src" // "TestRift.NUnit"))) ∅ in
  let c2 := MkCommand "dotnet build" (Some (str (repo_dir // "Example"))) ∅ in
  let out1 := spawn c1 (∅ ∪ environ s) (fs s) in
  let out2 := spawn c2 (∅ ∪ environ s) out1.1 in
  build repo_dir str spawn s
  = if bool_decide (out1.2 = 0%Z) then
      (MkState out2.1 (environ s) (cwd_stack s) (issued s ++ [c1; c2])
         (stdout s ++ ["Building TestRift.NUnit library..."; "Building Example tests..."]),
       if bool_decide (out2.2 = 0%Z) then Returned tt
       else Raised (CommandFailed "dotnet build" out2.2))
    else
      (MkState out1.1 (environ s) (cwd_stack s) (issued s ++ [c1])
         (stdout s ++ ["Building TestRift.NUnit library..."]),
       Raised (CommandFailed "dotnet build" out1.2)).
Proof.
  intros c1 c2 out1 out2. subst out1 out2.
  unfold build, bind, print, cd. simpl.
  rewrite run_spec. simpl. rewrite last_snoc, removelast_last. fold c1.
  case_bool_decide; [|done].
  rewrite run_spec. simpl. rewrite last_snoc, removelast_last. fold c2.
  rewrite <- !app_assoc. simpl. by case_bool_decide.
Qed.

(** *** [clean] *)

Lemma clean_loop_body p s :
  exists s', (d <- is_dir p ;; when d (rmtree p true)) s = (s', Returned tt) /\ shrinks s s'.
Proof.
  unfold bind, is_dir. simpl. destruct (fs_is_dir p (fs s)); simpl.
  - apply rmtree_ignoring_errors.
  - exists s. split; [done|reflexivity].
Qed.

Lemma clean_returns s :
  exists s', clean repo_dir s = (s', Returned tt) /\ shrinks s s'.
Proof.
  unfold clean.
  rewrite (bind_returned _ _ s s (fs_rglob repo_dir "bin" (fs s))) by done.
  destruct (for_each_returns shrinks (fs_rglob repo_dir "bin" (fs s)) _ clean_loop_body s)
    as (s1 & H1 & R1).
  rewrite (bind_returned _ _ _ _ _ H1).
  rewrite (bind_returned _ _ s1 s1 (fs_rglob repo_dir "obj" (fs s1))) by done.
  destruct (for_each_returns shrinks (fs_rglob repo_dir "obj" (fs s1)) _ clean_loop_body s1)
    as (s2 & H2 & R2).
  rewrite (bind_returned _ _ _ _ _ H2).
  rewrite (bind_returned _ _ s2 s2 (fs_exists (repo_dir // "artifacts") (fs s2))) by done.
  destruct (fs_exists (repo_dir // "artifacts") (fs s2)); simpl.
  - destruct (rmtree_ignoring_errors (repo_dir // "artifacts") s2) as (s3 & H3 & R3).
    exists s3. split; [done|]. by repeat (etrans; [eassumption|]).
  - exists s2. split; [done|]. by etrans.
Qed.

(** *** [pack] *)

(** [pack] creates [artifacts] and only then issues its one command, in
    the scope of the project directory. *)
Lemma pack_spec configuration s :
  let out_dir := repo_dir // "artifacts" in
  let c := MkCommand (pack_command configuration)
             (Some (str (repo_dir // "src" // "TestRift.NUnit"))) ∅ in
  match mkdir_raw out_dir true (fs s) with
  | (fs1, Some e) => pack repo_dir str spawn configuration s = (set_fs fs1 s, Raised e)
  | (fs1, None) =>
      fs_is_dir out_dir fs1 = true
      /\ pack repo_dir str spawn configuration s
         = (MkState (spawn c (∅ ∪ environ s) fs1).1 (environ s) (cwd_stack s)
              (issued s ++ [c]) (stdout s),
            if bool_decide ((spawn c (∅ ∪ environ s) fs1).2 = 0%Z) then Returned tt
            else Raised (CommandFailed (pack_command configuration)
                           (spawn c (∅ ∪ environ s) fs1).2))
  end.
Proof.
  intros out_dir c. unfold pack, bind, mkdir. fold out_dir.
  destruct (mkdir_raw out_dir true (fs s)) as [fs1 [e|]] eqn:Hmk; [done|].
  split; [by eapply mkdir_raw_is_dir|].
  unfold cd. rewrite run_spec. simpl. rewrite last_snoc, removelast_last.
  fold c. by case_bool_decide.
Qed.

Lemma scoped_pack configuration : scoped (pack repo_dir str spawn configuration).
Proof.
  unfold pack. apply scoped_bind; [apply scoped_mkdir|intros _].
  apply scoped_cd, scoped_run.
Qed.

(** *** [publish] *)

Lemma publish_without_key source s :
  environ s !! "NUGET_API_KEY" = None ->
  publish repo_dir str spawn source None s = (s, Raised missing_key).
Proof. intros Henv. unfold publish, bind, getenv. by rewrite Henv. Qed.

(** What [glob] yields for the package extension never carries the
    symbol-package extension. *)
Lemma glob_nupkg_not_snupkg dir fs pkg :
  pkg ∈ fs_glob dir ".nupkg" fs -> endswith (path_name pkg) ".snupkg" = false.
Proof.
  unfold fs_glob. intros (e & -> & He)%list_elem_of_fmap.
  apply list_elem_of_filter in He as [(_ & _ & Hn) _].
  by apply endswith_nupkg_not_snupkg.
Qed.

(** The push loop: one command per package, in order, until one fails. *)
Lemma push_loop key source pkgs s :
  (forall pkg, pkg ∈ pkgs -> endswith (path_name pkg) ".snupkg" = false) ->
  let loop := for_each pkgs (fun pkg =>
                if endswith (path_name pkg) ".snupkg" then ret tt
                else run spawn (push_command str pkg key source) ∅) in
  exists k,
    k <= length pkgs
    /\ issued (loop s).1
       = issued s ++ map (fun pkg => MkCommand (push_command str pkg key source)
                                       (last (cwd_stack s)) ∅) (take k pkgs)
    /\ ((loop s).2 = Returned tt -> k = length pkgs)
    /\ (k < length pkgs ->
        exists pkg code, pkgs !! (k - 1) = Some pkg /\ 0 < k
          /\ (loop s).2 = Raised (CommandFailed (push_command str pkg key source) code)).
Proof.
  intros Hpk loop. subst loop. revert s.
  induction pkgs as [|pkg pkgs IH]; intros s; simpl.
  - exists 0. rewrite app_nil_r. repeat split; [done|lia].
  - rewrite (Hpk pkg) by set_solver.
    pose proof (run_spec (push_command str pkg key source) ∅ s) as Hrun.
    simpl in Hrun.
    set (c := MkCommand (push_command str pkg key source) (last (cwd_stack s)) ∅) in *.
    destruct (bool_decide ((spawn c (∅ ∪ environ s) (fs s)).2 = 0%Z)).
    + rewrite (bind_returned _ _ _ _ _ Hrun).
      set (s1 := MkState _ _ _ _ _) in *.
      destruct (IH (fun p Hp => Hpk p (list_elem_of_further _ _ _ Hp)) s1)
        as (k & Hk & Hissued & Hret & Hfail).
      exists (Datatypes.S k). split; [lia|]. split.
      { rewrite Hissued. subst s1. simpl. by rewrite <- app_assoc. }
      split; [intros H; f_equal; by apply Hret|].
      intros Hlt. destruct Hfail as (p & code & Hp & Hpos & Hr); [lia|].
      exists p, code. split; [|split; [lia|done]].
      destruct k; [lia|]. simpl in *. by rewrite Nat.sub_0_r in Hp.
    + rewrite (bind_raised _ _ _ _ _ Hrun).
      exists 1. simpl. split; [lia|]. split; [done|]. split; [done|].
      intros _. eexists pkg, _. split; [done|]. split; [lia|done].
Qed.


(** *** [restore_local] *)


(** *** [run_example] *)

Lemma run_example_spec filter server_url s :
  let c := MkCommand (example_command filter) (Some (str (repo_dir // "Example")))
             (example_env server_url) in
  let out := spawn c (example_env server_url ∪ environ s) (fs s) in
  run_example repo_dir str spawn filter server_url s
  = (MkState out.1 (environ s) (cwd_stack s) (issued s ++ [c])
       (stdout s ++ ["Running example tests (server: " +:+ server_url +:+ ")..."]),
     if bool_decide (out.2 = 0%Z) then Returned tt
     else Raised (CommandFailed (example_command filter) out.2)).
Proof.
  intros c out. subst out. unfold run_example, bind, print, cd.
  rewrite run_spec. simpl. rewrite last_snoc, removelast_last. fold c.
  by case_bool_decide.
Qed.

Lemma example_env_dom server_url :
  dom (example_env server_url) = ({["TEST_LOG_SERVER_URL"; "TEST_DUT_NAME"]} : gset string).
Proof. unfold example_env. by rewrite dom_insert_L, dom_singleton_L. Qed.

Lemma example_command_filter filter :
  contains (example_command filter) "--filter" = true
  <-> exists f, filter = Some f /\ f <> "".
Proof.
  unfold example_command. destruct filter as [f|].
  - case_bool_decide as Hf.
    + split; [by vm_compute|]. intros (f' & [= <-] & Hne). done.
    + split; [by eauto|]. intros _. reflexivity.
  - split; [by vm_compute|]. by intros (f' & [=] & _).
Qed.

(** *** Invocations through the resolver *)

Lemma invoke_clean kwargs s :
  exists s1,
    clean repo_dir s = (s1, Returned tt) /\ shrinks s s1
    /\ invoke (clean_task repo_dir) kwargs s = MkRun s1 ["clean"] None.
Proof.
  destruct (clean_returns s) as (s1 & Hc & Hs).
  exists s1. split; [done|]. split; [done|].
  unfold invoke, resolve_and_run. simpl. unfold run_call. simpl. by rewrite Hc.
Qed.

Lemma invoke_pack kwargs s :
  exists s1,
    clean repo_dir s = (s1, Returned tt) /\ shrinks s s1
    /\ invoke (pack_task repo_dir str spawn) kwargs s
       = match pack repo_dir str spawn (default "Release" (kwargs !! "configuration")) s1 with
         | (s2, Raised e) => MkRun s2 ["clean"; "pack"] (Some e)
         | (s2, Returned _) => MkRun s2 ["clean"; "pack"] None
         end.
Proof.
  destruct (clean_returns s) as (s1 & Hc & Hs).
  exists s1. split; [done|]. split; [done|].
  unfold invoke, resolve_and_run. simpl. unfold run_call. simpl. rewrite Hc. simpl.
  by destruct (pack _ _ _ _ s1) as [s2 [e|[]]].
Qed.

Lemma invoke_publish kwargs s :
  exists s1,
    clean repo_dir s = (s1, Returned tt) /\ shrinks s s1
    /\ invoke (publish_task repo_dir str spawn) kwargs s
       = match pack repo_dir str spawn "Release" s1 with
         | (s2, Raised e) => MkRun s2 ["clean"; "pack"] (Some e)
         | (s2, Returned _) =>
             match publish repo_dir str spawn
                     (default "https://api.nuget.org/v3/index.json" (kwargs !! "source"))
                     (kwargs !! "api_key") s2 with
             | (s3, Raised e) => MkRun s3 ["clean"; "pack"; "publish"] (Some e)
             | (s3, Returned _) => MkRun s3 ["clean"; "pack"; "publish"] None
             end
         end.
Proof.
  destruct (clean_returns s) as (s1 & Hc & Hs).
  exists s1. split; [done|]. split; [done|].
  unfold invoke, resolve_and_run. simpl. unfold run_call. simpl. rewrite Hc. simpl.
  destruct (pack _ _ _ _ s1) as [s2 [e|[]]]; simpl; [done|].
  by destruct (publish _ _ _ _ _ s2) as [s3 [e|[]]].
Qed.
End TaskFacts.

(** ** The registry *)

Lemma filter_none {X} (P : X -> Prop) `{!forall x, Decision (P x)} (l : list X) :
  (forall x, x ∈ l -> ~ P x) -> filter P l = [].
Proof.
  induction l as [|x l IH]; intros Hl; [done|].
  rewrite filter_cons_False by (apply Hl; left).
  apply IH. intros y Hy. apply Hl. by right.
Qed.

#[local] Instance qualify_inj prefix : Inj (=) (=) (Registry.qualify prefix).
Proof.
  intros a b. unfold Registry.qualify.
  induction prefix as [|c prefix IH]; simpl; intros H.
  - by injection H.
  - injection H. apply IH.
Qed.

(** Merging into a registry none of whose names starts with the prefix. *)
Lemma merge_fresh prefix sub r :
  (forall n, Registry.tasks r !! Registry.qualify prefix n = None) ->
  Registry.collections r !! prefix = None ->
  Registry.merge prefix sub r
  = inr (Registry.Make (kmap (Registry.qualify prefix) sub ∪ Registry.tasks r)
           (<[prefix := sub]> (Registry.collections r))).
Proof.
  intros Hfresh Hcol. unfold Registry.merge.
  rewrite filter_none; [by rewrite Hcol|].
  intros kv _ [t Ht]. by rewrite Hfresh in Ht.
Qed.

Lemma lookup_merged_sub prefix (sub tasks : gmap string Task') n :
  (kmap (Registry.qualify prefix) sub ∪ tasks) !! Registry.qualify prefix n
  = match sub !! n with
    | Some t => Some t
    | None => tasks !! Registry.qualify prefix n
    end.
Proof.
  destruct (sub !! n) as [t|] eqn:Hn.
  - apply lookup_union_Some_l. rewrite lookup_kmap; [done|apply qualify_inj].
  - apply lookup_union_r. rewrite lookup_kmap; [done|apply qualify_inj].
Qed.

Lemma lookup_merged_top prefix (sub tasks : gmap string Task') q :
  (forall n, q <> Registry.qualify prefix n) ->
  (kmap (Registry.qualify prefix) sub ∪ tasks) !! q = tasks !! q.
Proof.
  intros Hq. apply lookup_union_r. apply lookup_kmap_None; [apply qualify_inj|].
  intros n Hn. by destruct (Hq n).
Qed.

Section NamespaceFacts.
Variable repo_dir : Path.
Variable str : Path -> string.
Variable spawn : Command -> gmap string string -> FS -> FS * Z.
Variable test_tasks_module : gmap string Task'.

(** The six tasks added one by one. *)
Lemma ns_top_level :
  ns repo_dir str spawn test_tasks_module
  = Registry.merge "test" test_tasks_module
      (Registry.Make
         (<["run_example" := run_example_task repo_dir str spawn]>
            (<["restore_local" := restore_local_task repo_dir str spawn]>
               (<["publish" := publish_task repo_dir str spawn]>
                  (<["pack" := pack_task repo_dir str spawn]>
                     (<["clean" := clean_task repo_dir]>
                        (<["build" := build_task repo_dir str spawn]> ∅))))))
         ∅).
Proof.
  unfold ns, Registry.register, Registry.empty. simpl.
  rewrite lookup_empty. simpl.
  repeat (rewrite !lookup_insert_ne by done; rewrite lookup_empty; simpl).
  done.
Qed.
End NamespaceFacts.

(** ** Loops of commands *)

Section FailFast.
Variable spawn : Command -> gmap string string -> FS -> FS * Z.

Lemma spawned_cons env c cmds fs :
  spawned spawn env (c :: cmds) fs = spawned spawn env cmds (spawn c env fs).1.
Proof. reflexivity. Qed.

(** A loop whose body prints a banner and runs one command stops at the
    first command whose exit status is not zero: the commands before it
    exited with zero, each on the filesystem its predecessors left, and
    nothing after it is issued. *)
Lemma fail_fast_loop {X} (line : X -> string) (banner : X -> list string)
    (body : X -> T unit) (l : list X) :
  (forall x, x ∈ l -> forall s,
      body x s
      = (MkState (spawn (MkCommand (line x) (last (cwd_stack s)) ∅)
                    (∅ ∪ environ s) (fs s)).1
           (environ s) (cwd_stack s)
           (issued s ++ [MkCommand (line x) (last (cwd_stack s)) ∅])
           (stdout s ++ banner x),
         if bool_decide ((spawn (MkCommand (line x) (last (cwd_stack s)) ∅)
                            (∅ ∪ environ s) (fs s)).2 = 0%Z)
         then Returned tt
         else Raised (CommandFailed (line x)
                        (spawn (MkCommand (line x) (last (cwd_stack s)) ∅)
                           (∅ ∪ environ s) (fs s)).2))) ->
  forall s,
    let env := ∅ ∪ environ s in
    let cmds := map (fun x => MkCommand (line x) (last (cwd_stack s)) ∅) l in
    let status := fun i c => (spawn c env (spawned spawn env (take i cmds) (fs s))).2 in
    let out := for_each l body s in
    exists k,
      k <= length l
      /\ issued out.1 = issued s ++ take k cmds
      /\ stdout out.1 = stdout s ++ concat (map banner (take k l))
      /\ fs out.1 = spawned spawn env (take k cmds) (fs s)
      /\ environ out.1 = environ s
      /\ cwd_stack out.1 = cwd_stack s
      /\ (forall i c, cmds !! i = Some c -> i + 1 < k -> status i c = 0%Z)
      /\ ((k = length l
           /\ (forall i c, cmds !! i = Some c -> status i c = 0%Z)
           /\ out.2 = Returned tt)
          \/ (exists c,
                cmds !! (k - 1) = Some c /\ 0 < k /\ status (k - 1) c <> 0%Z
                /\ out.2 = Raised (CommandFailed (cmd_line c) (status (k - 1) c)))).
Proof.
  induction l as [|x l IH]; intros Hbody s; simpl.
  - exists 0. simpl. rewrite !app_nil_r. repeat split; try done; try lia.
    left. repeat split; done.
  - pose proof (Hbody x (list_elem_of_here _ _) s) as Hx.
    set (c0 := MkCommand (line x) (last (cwd_stack s)) ∅) in *.
    set (env := ∅ ∪ environ s) in *.
    destruct (decide ((spawn c0 env (fs s)).2 = 0%Z)) as [Hzero|Hfail].
    + rewrite bool_decide_eq_true_2 in Hx by done.
      rewrite (bind_returned _ _ _ _ _ Hx).
      set (s1 := MkState (spawn c0 env (fs s)).1 (environ s) (cwd_stack s)
                   (issued s ++ [c0]) (stdout s ++ banner x)).
      destruct (IH (fun y Hy => Hbody y (list_elem_of_further _ _ _ Hy)) s1)
        as (k & Hk & Hissued & Hout & Hfs & Henv & Hstack & Hbefore & Hend).
      simpl in Hissued, Hout, Hfs, Henv, Hstack, Hbefore, Hend. fold env in Hfs, Hbefore, Hend.
      exists (Datatypes.S k). simpl.
      split; [lia|]. split; [by rewrite Hissued, <- app_assoc|].
      split; [by rewrite Hout, <- !app_assoc|].
      split; [done|]. split; [done|]. split; [done|].
      split.
      { intros [|i] c Hc Hi; simpl in *; [by injection Hc as <-|].
        apply Hbefore; [done|lia]. }
      destruct Hend as [(-> & Hall & Hret)|(c & Hc & Hpos & Hst & Hret)].
      * left. split; [done|]. split; [|done].
        intros [|i] c Hc; simpl in *; [by injection Hc as <-|]. by apply Hall.
      * right. exists c. rewrite Nat.sub_0_r.
        destruct k as [|k]; [lia|]. simpl in *. rewrite Nat.sub_0_r in Hc, Hst, Hret.
        split; [done|]. split; [lia|]. split; done.
    + rewrite bool_decide_eq_false_2 in Hx by done.
      rewrite (bind_raised _ _ _ _ _ Hx).
      exists 1. simpl. rewrite app_nil_r.
      split; [lia|]. split; [done|]. split; [done|]. split; [done|].
      split; [done|]. split; [done|].
      split; [intros i c _ Hi; lia|].
      right. exists c0. split; [done|]. split; [lia|]. split; done.
Qed.
End FailFast.

(** ** One invocation *)

(** An invocation runs the calls of the prerequisites and then, unless one
    of them failed or the task has run already, the body of the task. *)
Lemma resolve_and_run_unfold {S E A} (no_args : A) (t : Task S E A) args s :
  resolve_and_run no_args t args s
  = run_call t args
      (run_calls (map (fun p => (p, no_args)) (flat_map expand_calls (task_pre t)))
         (start s)).
Proof.
  unfold resolve_and_run. rewrite walk_run_calls. unfold calls_of.
  by rewrite run_calls_app.
Qed.

(** * The claims *)

Section ResolverClaims.
Context {S E A : Type}.
Variable no_args : A.
Variable repo_dir : Path.
Variable str : Path -> string.
Variable spawn : Command -> gmap string string -> FS -> FS * Z.

(** C1. A top-level invocation of a task [t] runs the bodies of its
    prerequisite closure in declared depth-first order and then the body of
    [t]; no body runs twice, also when a prerequisite is reachable along
    several paths. In detail: the walk of the resolver is the pipeline
    expand, remove repeated calls, execute; the order of the closure of [t]
    is the closure of its first prerequisite, then what the next ones add,
    then [t]; the order has no repetition and holds every task reachable
    from [t]; what was executed is always an initial segment of the order,
    and all of it when the invocation succeeds; [t] comes last, after all
    that its prerequisites reach. For [publish] the order is [clean],
    [pack], [publish]. *)
Theorem prerequisites_run_once_in_declared_order
    (t : Task S E A) (args : A) (s : S) :
  let r := resolve_and_run no_args t args s in
  let order := call_names (closure no_args t args) in
  r = execute no_args t args s
  /\ order = first_occurrences []
               (flat_map (fun p => call_names (closure no_args p no_args)) (task_pre t)
                  ++ [task_name t])
  /\ NoDup order
  /\ (forall u, u ∈ expand_calls t -> task_name u ∈ order)
  /\ run_executed r `prefix_of` order
  /\ (run_failure r = None -> run_executed r = order)
  /\ (task_name t ∉ map task_name (flat_map expand_calls (task_pre t)) ->
      exists before,
        order = before ++ [task_name t]
        /\ forall u, u ∈ flat_map expand_calls (task_pre t) -> task_name u ∈ before)
  /\ (forall kwargs,
        call_names (closure ∅ (publish_task repo_dir str spawn) kwargs)
        = ["clean"; "pack"; "publish"]).
Proof.
  intros r order. subst r order.
  split; [apply resolve_and_run_execute|].
  split; [apply closure_names_rec|].
  split; [rewrite closure_names; apply first_occurrences_NoDup|].
  split.
  { intros u Hu. rewrite closure_names.
    destruct (first_occurrences_complete [] (map task_name (expand_calls t)) (task_name u))
      as [Hnil|Hin]; [by apply list_elem_of_fmap_2| |done].
    by apply elem_of_nil in Hnil. }
  split; [apply executed_prefix|].
  split; [apply executed_all|].
  split; [|done].
  intros Hfresh. eexists. split; [by apply closure_names_last|].
  intros u Hu.
  destruct (first_occurrences_complete []
              (map task_name (flat_map expand_calls (task_pre t))) (task_name u))
    as [Hnil|Hin]; [by apply list_elem_of_fmap_2| |done].
  by apply elem_of_nil in Hnil.
Qed.

(** C2. When an invocation of [t] fails with [e], the closure splits
    around one call [p]: the calls before [p] ran and succeeded, the body
    of [p] is what raised [e] and the failure surfaced is that very [e],
    with the world as [p] left it; no call after [p] was executed, and
    when [p] is not [t] itself the body of [t] did not run. *)
Theorem failed_prerequisite_stops_the_invocation
    (t : Task S E A) (args : A) (s : S) (e : E) :
  run_failure (resolve_and_run no_args t args s) = Some e ->
  let r := resolve_and_run no_args t args s in
  exists l1 p a l2 s0,
    closure no_args t args = l1 ++ (p, a) :: l2
    /\ execute_calls l1 (start s) = MkRun s0 (call_names l1) None
    /\ task_body p a s0 = (run_state r, Raised e)
    /\ run_executed r = call_names l1 ++ [task_name p]
    /\ (forall c, c ∈ l2 -> task_name c.1 ∉ run_executed r)
    /\ (task_name t ∉ map task_name (flat_map expand_calls (task_pre t)) ->
        task_name p <> task_name t -> task_name t ∉ run_executed r).
Proof.
  intros Hfail r. subst r. revert Hfail.
  rewrite resolve_and_run_execute. unfold execute. intros Hfail.
  pose proof (first_occurrences_NoDup [] (map task_name (expand_calls t))) as Hnd.
  rewrite <- (closure_names no_args t args) in Hnd.
  destruct (execute_calls_spec (closure no_args t args) (start s) eq_refl)
    as [[Hnone _]|(l1 & [p a] & l2 & s0 & e' & Hsplit & Hl1 & Hbody & Hsome & Hexec)];
    [congruence|].
  assert (e' = e) as -> by congruence.
  exists l1, p, a, l2, s0. simpl in *.
  rewrite Hsplit in Hnd. rewrite call_names_app in Hnd. simpl in Hnd.
  apply NoDup_app in Hnd as (Hnd1 & Hdisj & Hnd2).
  apply NoDup_cons in Hnd2 as [Hp2 Hnd2].
  assert (forall c, c ∈ l2 -> task_name c.1 ∉ call_names l1 ++ [task_name p]) as Hafter.
  { intros c Hc [Hin|Hin%list_elem_of_singleton]%elem_of_app.
    - apply (Hdisj _ Hin). right. by apply (list_elem_of_fmap_2 (fun c => task_name c.1)).
    - apply Hp2. rewrite <- Hin.
      by apply (list_elem_of_fmap_2 (fun c => task_name c.1)). }
  rewrite Hexec. simpl.
  do 5 (split; [done|]).
  intros Hfresh Hne.
  pose proof (closure_names_last no_args t args Hfresh) as Hlast.
  rewrite Hsplit in Hlast.
  apply (f_equal last) in Hlast. rewrite last_snoc in Hlast.
  rewrite call_names_app in Hlast. simpl in Hlast.
  rewrite last_app_cons, last_cons in Hlast.
  destruct (last (call_names l2)) as [n|] eqn:Hl2; [|congruence].
  assert (n = task_name t) as -> by congruence.
  apply last_Some_elem_of in Hl2.
  apply list_elem_of_fmap in Hl2 as (c & Hc & Hin).
  rewrite Hc. by apply Hafter.
Qed.
End ResolverClaims.

(** The diamond: [base] is reachable through [left] and through [right] and
    runs once, first. *)
Example diamond_runs_in_order :
  resolve_and_run tt (Diamond.top "") tt []
  = MkRun ["base"; "left"; "right"; "top"] ["base"; "left"; "right"; "top"] None.
Proof. reflexivity. Qed.

Lemma prerequisites_run_once_in_declared_order_witness :
  run_executed (resolve_and_run tt (Diamond.top "") tt [])
  = call_names (closure tt (Diamond.top "") tt).
Proof.
  apply (prerequisites_run_once_in_declared_order
           tt Demo.repo Demo.posix Demo.toolchain (Diamond.top "") tt []).
  reflexivity.
Defined.

(** The diamond with a failing [left]: [right] and [top] do not run. *)
Example diamond_stops_at_left :
  resolve_and_run tt (Diamond.top "left") tt []
  = MkRun ["base"; "left"] ["base"; "left"] (Some "failed: left").
Proof. reflexivity. Qed.

Lemma failed_prerequisite_stops_the_invocation_witness :
  exists l1 p a l2 s0,
    closure tt (Diamond.top "left") tt = l1 ++ (p, a) :: l2
    /\ execute_calls l1 (start []) = MkRun s0 (call_names l1) None
    /\ task_body p a s0
       = (run_state (resolve_and_run tt (Diamond.top "left") tt []), Raised "failed: left")
    /\ run_executed (resolve_and_run tt (Diamond.top "left") tt [])
       = call_names l1 ++ [task_name p]
    /\ (forall c, c ∈ l2 ->
        task_name c.1 ∉ run_executed (resolve_and_run tt (Diamond.top "left") tt []))
    /\ (task_name (Diamond.top "left")
          ∉ map task_name (flat_map expand_calls (task_pre (Diamond.top "left"))) ->
        task_name p <> task_name (Diamond.top "left") ->
        task_name (Diamond.top "left")
          ∉ run_executed (resolve_and_run tt (Diamond.top "left") tt [])).
Proof.
  apply (failed_prerequisite_stops_the_invocation tt (Diamond.top "left") tt []
           "failed: left").
  reflexivity.
Defined.

Section TaskClaims.
Variable repo_dir : Path.
Variable str : Path -> string.
Variable spawn : Command -> gmap string string -> FS -> FS * Z.

(** C3, amended. Every invocation of [pack] runs the body of [clean],
    which returns, and then the body of [pack]. When the invocation
    succeeds, [pack] had created the [artifacts] directory before it issued
    its one command, which exited with status zero; the filesystem
    afterwards is the one that command left, so that [artifacts] is a
    directory afterwards exactly when the command of the toolchain did not
    remove it. *)
Theorem pack_cleans_first_and_leaves_artifacts kwargs s :
  let r := invoke (pack_task repo_dir str spawn) kwargs s in
  let configuration := default "Release" (kwargs !! "configuration") in
  let c := MkCommand ("dotnet pack -c " +:+ configuration +:+ " -o ..\..\artifacts")
             (Some (str (repo_dir // "src" // "TestRift.NUnit"))) ∅ in
  exists s1,
    clean repo_dir s = (s1, Returned tt)
    /\ run_executed r = ["clean"; "pack"]
    /\ run_state r = (pack repo_dir str spawn configuration s1).1
    /\ (run_failure r = None ->
        exists fs1,
          mkdir_raw (repo_dir // "artifacts") true (fs s1) = (fs1, None)
          /\ fs_is_dir (repo_dir // "artifacts") fs1 = true
          /\ issued (run_state r) = issued s ++ [c]
          /\ (spawn c (∅ ∪ environ s) fs1).2 = 0%Z
          /\ fs (run_state r) = (spawn c (∅ ∪ environ s) fs1).1
          /\ (fs_is_dir (repo_dir // "artifacts") (fs (run_state r)) = true
              <-> fs_is_dir (repo_dir // "artifacts") (spawn c (∅ ∪ environ s) fs1).1 = true)).
Proof.
  intros r configuration c. subst r.
  destruct (invoke_pack repo_dir str spawn kwargs s) as (s1 & Hclean & [Hframe _] & ->).
  destruct Hframe as (Henv & _ & Hissued & _).
  exists s1. split; [done|]. fold configuration.
  pose proof (pack_spec repo_dir str spawn configuration s1) as Hpack. simpl in Hpack.
  destruct (mkdir_raw (repo_dir // "artifacts") true (fs s1)) as [fs1 [e|]] eqn:Hmk.
  { rewrite Hpack. simpl. by repeat split. }
  destruct Hpack as [Hdir ->]. rewrite Henv, Hissued.
  change (MkCommand (pack_command configuration) _ ∅) with c.
  case_bool_decide as Hcode; simpl; (split; [done|]); (split; [done|]); [|done].
  intros _. exists fs1. by repeat split.
Qed.

(** C4. With no explicit key and no [NUGET_API_KEY] in the environment
    the body of [publish] raises the missing-key error and changes
    nothing, so it issues no command. An invocation of [publish] from the
    entry point fails as well and issues no push command: the only command
    it may issue is the one of its prerequisite [pack], and once the body
    of [publish] is reached the failure is the missing-key error. *)
Theorem publish_without_credential kwargs s :
  environ s !! "NUGET_API_KEY" = None ->
  kwargs !! "api_key" = None ->
  let r := invoke (publish_task repo_dir str spawn) kwargs s in
  (forall source, publish repo_dir str spawn source None s = (s, Raised missing_key))
  /\ (exists e, run_failure r = Some e)
  /\ (exists extra,
        issued (run_state r) = issued s ++ extra
        /\ Forall (fun c => is_push c = false) extra)
  /\ ("publish" ∈ run_executed r -> run_failure r = Some missing_key).
Proof.
  intros Henv Hkey r. subst r.
  split; [intros source; by apply publish_without_key|].
  destruct (invoke_publish repo_dir str spawn kwargs s)
    as (s1 & Hclean & [Hframe _] & ->).
  destruct Hframe as (Henv1 & _ & Hissued1 & _).
  pose proof (pack_spec repo_dir str spawn "Release" s1) as Hpack. simpl in Hpack.
  destruct (mkdir_raw (repo_dir // "artifacts") true (fs s1)) as [fs1 [e|]] eqn:Hmk.
  { rewrite Hpack. simpl. split; [by eauto|]. split.
    - exists []. by rewrite app_nil_r, Hissued1.
    - intros Hin. set_solver. }
  destruct Hpack as [_ ->]. rewrite Hissued1.
  case_bool_decide; simpl.
  - rewrite Hkey, publish_without_key by (simpl; congruence). simpl.
    split; [by eauto|]. split; [|done].
    eexists [_]. split; [done|]. by repeat constructor.
  - split; [by eauto|]. split; [|set_solver].
    eexists [_]. split; [done|]. by repeat constructor.
Qed.



(** C10. [clean] returns in every world: each removal ignores its errors
    and the removal of [artifacts] happens only when it exists. It issues
    no command, prints nothing, and the filesystem only loses entries; an
    invocation of [clean] therefore never fails. *)
Theorem clean_never_fails kwargs s :
  exists s',
    clean repo_dir s = (s', Returned tt)
    /\ only_fs_changed s s'
    /\ fs s' `sublist_of` fs s
    /\ invoke (clean_task repo_dir) kwargs s = MkRun s' ["clean"] None.
Proof.
  destruct (invoke_clean repo_dir kwargs s) as (s' & Hc & [Hf Hs] & Hi).
  by exists s'.
Qed.
End TaskClaims.

Section ScopeClaims.
Variable repo_dir : Path.
Variable str : Path -> string.
Variable spawn : Command -> gmap string string -> FS -> FS * Z.

(** C7. Directory scopes are a stack. A command run inside the scope [A]
    sees [A]; when the scope is left, with the command having succeeded or
    failed, the stack is what it was, so that the next command sees the
    directory that was current before the scope. This holds for every
    scoped body and so for nested scopes. In [build] the two commands see
    their own directory each and the stack is restored on every exit
    path. *)
Theorem directory_scope_is_restored A cmd1 env1 cmd2 env2 s :
  let inside := MkCommand cmd1 (Some A) env1 in
  let after := MkCommand cmd2 (last (cwd_stack s)) env2 in
  let s1 := (cd A (run spawn cmd1 env1) s).1 in
  issued s1 = issued s ++ [inside]
  /\ cwd_stack s1 = cwd_stack s
  /\ issued (run spawn cmd2 env2 s1).1 = issued s ++ [inside; after]
  /\ (forall X d (body : T X), scoped body -> scoped (cd d body))
  /\ scoped (build repo_dir str spawn)
  /\ (let c1 := MkCommand "dotnet build"
                  (Some (str (repo_dir // "src" // "TestRift.NUnit"))) ∅ in
      let c2 := MkCommand "dotnet build" (Some (str (repo_dir // "Example"))) ∅ in
      let s2 := (build repo_dir str spawn s).1 in
      cwd_stack s2 = cwd_stack s
      /\ (issued s2 = issued s ++ [c1] \/ issued s2 = issued s ++ [c1; c2])
      /\ ((build repo_dir str spawn s).2 = Returned tt ->
          issued s2 = issued s ++ [c1; c2])).
Proof.
  intros inside after s1. subst s1.
  unfold cd. rewrite run_spec. simpl. rewrite last_snoc, removelast_last.
  fold inside. split; [done|]. split; [done|].
  split; [rewrite run_spec; simpl; by rewrite <- app_assoc|].
  split; [intros X d body; apply scoped_cd|].
  split; [apply scoped_build|].
  rewrite build_spec. simpl.
  destruct (bool_decide (_ = 0%Z)); simpl; repeat split; try done; by auto.
Qed.

(** C8, amended. [run_example] issues one command, in the scope of the
    example directory. Its overlay holds the two variables
    [TEST_LOG_SERVER_URL], bound to the server URL, and [TEST_DUT_NAME],
    bound to [INVOKE-TEST], and nothing else. The overlay belongs to that
    command: the ambient environment is as before and a later command
    carries its own overlay only. The command line has a [--filter]
    clause exactly when a filter that is not the empty string was given. *)
Theorem run_example_command filter server_url s :
  let out := run_example repo_dir str spawn filter server_url s in
  exists c,
    issued out.1 = issued s ++ [c]
    /\ cmd_line c = example_command filter
    /\ cmd_cwd c = Some (str (repo_dir // "Example"))
    /\ cmd_env c !! "TEST_LOG_SERVER_URL" = Some server_url
    /\ cmd_env c !! "TEST_DUT_NAME" = Some "INVOKE-TEST"
    /\ dom (cmd_env c) = ({["TEST_LOG_SERVER_URL"; "TEST_DUT_NAME"]} : gset string)
    /\ environ out.1 = environ s
    /\ cwd_stack out.1 = cwd_stack s
    /\ (forall cmd2 env2,
          issued (run spawn cmd2 env2 out.1).1
          = issued s ++ [c; MkCommand cmd2 (last (cwd_stack s)) env2])
    /\ (contains (cmd_line c) "--filter" = true
        <-> exists f, filter = Some f /\ f <> "").
Proof.
  intros out. subst out. rewrite run_example_spec. simpl.
  eexists. split; [done|]. simpl.
  split; [done|]. split; [done|].
  split; [done|]. split; [done|].
  split; [apply example_env_dom|].
  split; [done|]. split; [done|].
  split; [|apply example_command_filter].
  intros cmd2 env2. rewrite run_spec. simpl. by rewrite <- app_assoc.
Qed.
End ScopeClaims.

(** C8, as first stated, fails: [run_example] is given a filter, the empty
    string, and the command it issues has no [--filter] clause. *)
Lemma run_example_empty_filter_has_no_clause :
  ~ (forall c,
       c ∈ issued (run_example Demo.repo Demo.posix Demo.toolchain (Some "")
                     "http://localhost:8080" (Demo.world ∅)).1 ->
       (contains (cmd_line c) "--filter" = true <-> Some "" <> (None : option string))).
Proof.
  intros H.
  specialize (H (MkCommand "dotnet test --logger console;verbosity=normal"
                   (Some "/work/testrift-nunit/Example")
                   (example_env "http://localhost:8080"))).
  destruct H as [_ H].
  - replace (issued _) with
      [MkCommand "dotnet test --logger console;verbosity=normal"
         (Some "/work/testrift-nunit/Example") (example_env "http://localhost:8080")]
      by (vm_compute; reflexivity).
    apply list_elem_of_here.
  - by specialize (H ltac:(done)).
Qed.

Section NamespaceClaims.
Variable repo_dir : Path.
Variable str : Path -> string.
Variable spawn : Command -> gmap string string -> FS -> FS * Z.
Variable test_tasks_module : gmap string Task'.

(** C6. Whatever tasks [tests/tasks.py] defines, building the namespace
    succeeds; every task [t] that the sub-collection holds under a name
    [n] is found under [test.n], what is found is [t] itself, and a
    qualified name finds nothing else. Invoking the qualified name from the
    entry point is the invocation of [t]: after the prerequisites of [t],
    if these did not fail, the body that runs is the body of [t], with the
    arguments given, and the world and the failure of the invocation are
    what that body returned. The six top-level tasks are found under their
    own names, unchanged; the sub-collection is recorded under its prefix as
    it was. *)
Theorem test_collection_is_mounted_under_prefix :
  exists r,
    ns repo_dir str spawn test_tasks_module = inr r
    /\ (forall n t, test_tasks_module !! n = Some t <->
                    Registry.lookup (Registry.qualify "test" n) r = inr t)
    /\ (forall n t kwargs s,
          test_tasks_module !! n = Some t ->
          let before :=
            run_calls (map (fun p => (p, ∅)) (flat_map expand_calls (task_pre t)))
              (start s) in
          exists run,
            invoke_by_name r ("test." +:+ n) kwargs s = inr run
            /\ (run_failure before = None -> task_name t ∉ run_executed before ->
                run_state run = (task_body t kwargs (run_state before)).1
                /\ run_executed run = run_executed before ++ [task_name t]
                /\ run_failure run
                   = match (task_body t kwargs (run_state before)).2 with
                     | Raised e => Some e
                     | Returned _ => None
                     end)
            /\ (task_pre t = [] ->
                run_state run = (task_body t kwargs s).1
                /\ run_executed run = [task_name t]))
    /\ Registry.lookup "build" r = inr (build_task repo_dir str spawn)
    /\ Registry.lookup "clean" r = inr (clean_task repo_dir)
    /\ Registry.lookup "pack" r = inr (pack_task repo_dir str spawn)
    /\ Registry.lookup "publish" r = inr (publish_task repo_dir str spawn)
    /\ Registry.lookup "restore_local" r = inr (restore_local_task repo_dir str spawn)
    /\ Registry.lookup "run_example" r = inr (run_example_task repo_dir str spawn)
    /\ Registry.collections r !! "test" = Some test_tasks_module.
Proof.
  rewrite ns_top_level.
  match goal with |- context [Registry.Make ?m ∅] => set (top := m) end.
  assert (forall n, top !! Registry.qualify "test" n = None) as Hfresh.
  { intros n. subst top. unfold Registry.qualify. simpl.
    rewrite !lookup_insert_ne by done. apply lookup_empty. }
  rewrite merge_fresh by (done || apply lookup_empty).
  eexists. split; [done|].
  assert (forall n,
            Registry.lookup (Registry.qualify "test" n)
              (Registry.Make (kmap (Registry.qualify "test") test_tasks_module ∪ top)
                 (<["test" := test_tasks_module]> ∅))
            = match test_tasks_module !! n with
              | Some t => inr t
              | None => inl (Registry.UnknownTask (Registry.qualify "test" n))
              end) as Hsub.
  { intros n. unfold Registry.lookup. simpl Registry.tasks.
    rewrite lookup_merged_sub. destruct (test_tasks_module !! n); [done|].
    by rewrite Hfresh. }
  split.
  { intros n t. simpl Registry.collections. rewrite Hsub.
    destruct (test_tasks_module !! n); split; congruence. }
  split.
  { intros n t kwargs s Hn before. exists (invoke t kwargs s).
    split.
    { unfold invoke_by_name.
      change ("test." +:+ n) with (Registry.qualify "test" n).
      simpl Registry.collections. by rewrite Hsub, Hn. }
    assert (invoke t kwargs s = run_call t kwargs before) as Hrun
      by apply resolve_and_run_unfold.
    split.
    - intros Hok Hfresh'. rewrite Hrun. unfold run_call. rewrite Hok.
      rewrite bool_decide_eq_false_2 by done.
      by destruct (task_body t kwargs (run_state before)) as [s' [e|x]].
    - intros Hpre. rewrite Hrun. subst before. rewrite Hpre. simpl.
      unfold run_call. simpl.
      by destruct (task_body t kwargs s) as [s' [e|x]]. }
  unfold Registry.lookup. simpl.
  rewrite !lookup_merged_top by (intros n; unfold Registry.qualify; simpl; done).
  subst top. rewrite lookup_insert_eq.
  repeat (split; [by simplify_map_eq|]).
  done.
Qed.
End NamespaceClaims.

(** ** The claims on the example world *)

Lemma demo_toolchain_keeps_artifacts c env fs :
  fs_is_dir Demo.artifacts fs = true ->
  fs_is_dir Demo.artifacts (Demo.toolchain c env fs).1 = true.
Proof.
  intros H. unfold Demo.toolchain.
  destruct (String.prefix _ _); simpl; [by apply fs_is_dir_app|done].
Qed.

Lemma pack_cleans_first_and_leaves_artifacts_witness :
  fs_is_dir Demo.artifacts
    (fs (run_state (invoke (pack_task Demo.repo Demo.posix Demo.toolchain) ∅ (Demo.world ∅))))
  = true.
Proof.
  destruct (pack_cleans_first_and_leaves_artifacts Demo.repo Demo.posix Demo.toolchain
              ∅ (Demo.world ∅)) as (s1 & _ & _ & _ & H).
  assert (run_failure (invoke (pack_task Demo.repo Demo.posix Demo.toolchain) ∅
                         (Demo.world ∅)) = None) as Hok
    by (vm_compute; reflexivity).
  destruct (H Hok) as (fs1 & _ & Hdir & _ & _ & _ & Hiff).
  apply Hiff. by apply demo_toolchain_keeps_artifacts.
Defined.

(** C3, as first stated, fails: with a toolchain that exits with zero and
    removes [artifacts], [pack] succeeds and there is no [artifacts]
    directory afterwards. *)
Lemma pack_succeeds_without_artifacts :
  ~ (run_failure (invoke (pack_task Demo.repo Demo.posix Hostile.wipes) ∅ (Demo.world ∅))
     = None ->
     fs_is_dir Demo.artifacts
       (fs (run_state (invoke (pack_task Demo.repo Demo.posix Hostile.wipes) ∅
                         (Demo.world ∅))))
     = true).
Proof.
  intros H.
  assert (run_failure (invoke (pack_task Demo.repo Demo.posix Hostile.wipes) ∅
                         (Demo.world ∅)) = None) as Hok
    by (vm_compute; reflexivity).
  specialize (H Hok). by vm_compute in H.
Qed.

(** [pack] on the example world: the old packages are gone, the new ones
    are there. *)
Example demo_pack :
  let r := invoke (pack_task Demo.repo Demo.posix Demo.toolchain) ∅ (Demo.world ∅) in
  run_executed r = ["clean"; "pack"]
  /\ run_failure r = None
  /\ fs_glob Demo.artifacts ".nupkg" (fs (run_state r))
     = [Demo.artifacts // "TestRift.NUnit.2.0.0.nupkg"].
Proof. by vm_compute. Qed.

Lemma publish_without_credential_witness :
  run_failure (invoke (publish_task Demo.repo Demo.posix Demo.toolchain) ∅ (Demo.world ∅))
  = Some missing_key.
Proof.
  assert (environ (Demo.world ∅) !! "NUGET_API_KEY" = None) as Henv
    by (vm_compute; reflexivity).
  assert ((∅ : gmap string string) !! "api_key" = None) as Hkey
    by (vm_compute; reflexivity).
  destruct (publish_without_credential Demo.repo Demo.posix Demo.toolchain
              ∅ (Demo.world ∅) Henv Hkey) as (_ & _ & _ & H).
  apply H.
  replace (run_executed _) with ["clean"; "pack"; "publish"] by (vm_compute; reflexivity).
  do 2 apply list_elem_of_further. apply list_elem_of_here.
Defined.



(** With [Foo.1.0.0.nupkg] and [Foo.1.0.0.snupkg] in [artifacts], exactly one
    push command is issued, for the [.nupkg] file. *)
Example demo_publish_one_push :
  let s := Demo.world ∅ in
  publish Demo.repo Demo.posix Demo.toolchain "https://feed" (Some "k") s
  = (MkState (fs s) (environ s) (cwd_stack s)
       [MkCommand (push_command Demo.posix (Demo.artifacts // "Foo.1.0.0.nupkg")
                     "k" "https://feed") None ∅]
       (stdout s),
     Returned tt).
Proof. by vm_compute. Qed.

(** With a toolchain that fails, [publish] stops at [pack]. *)
Example demo_publish_stops_at_pack :
  let r := invoke (publish_task Demo.repo Demo.posix Demo.broken)
             {[ "api_key" := "k" ]} (Demo.world ∅) in
  run_executed r = ["clean"; "pack"]
  /\ run_failure r = Some (CommandFailed (pack_command "Release") 1)
  /\ map cmd_line (issued (run_state r)) = [pack_command "Release"].
Proof. by vm_compute. Qed.


(** [clean] on the example world: the removal of [obj] meets a locked file
    and reports it; [clean] returns all the same, with [bin] and [artifacts]
    gone and [obj] left. *)
Example demo_clean :
  (rmtree_raw (Demo.repo // "src" // "TestRift.NUnit" // "obj") Demo.tree).2
  = Some (PermissionError (Demo.repo // "src" // "TestRift.NUnit" // "obj"))
  /\ (clean Demo.repo (Demo.world ∅)).2 = Returned tt
  /\ map e_path (fs (clean Demo.repo (Demo.world ∅)).1)
     = [["work"]; Demo.repo; Demo.repo // "src"; Demo.repo // "src" // "TestRift.NUnit";
        Demo.repo // "src" // "TestRift.NUnit" // "obj";
        Demo.repo // "src" // "TestRift.NUnit" // "obj" // "project.assets.json"].
Proof. by vm_compute. Qed.

Lemma directory_scope_is_restored_witness :
  scoped (cd "/tmp" (cd "/tmp/inner" (run Demo.broken "false" ∅))).
Proof.
  apply (directory_scope_is_restored Demo.repo Demo.posix Demo.broken
           "/tmp" "false" ∅ "true" ∅ (Demo.world ∅)).
  apply (directory_scope_is_restored Demo.repo Demo.posix Demo.broken
           "/tmp" "false" ∅ "true" ∅ (Demo.world ∅)).
  intros s. split; reflexivity.
Defined.

(** [build] with a failing toolchain: the first command fails inside its
    scope, the second one is not issued, and the stack is empty again. *)
Example demo_build_fails_in_scope :
  let out := build Demo.repo Demo.posix Demo.broken (Demo.world ∅) in
  out.2 = Raised (CommandFailed "dotnet build" 1)
  /\ cwd_stack out.1 = []
  /\ map cmd_cwd (issued out.1) = [Some "/work/testrift-nunit/src/TestRift.NUnit"]
  /\ map cmd_cwd (issued (run Demo.broken "dotnet --info" ∅ out.1).1)
     = [Some "/work/testrift-nunit/src/TestRift.NUnit"; None].
Proof. by vm_compute. Qed.

Lemma test_collection_is_mounted_under_prefix_witness :
  exists r run,
    ns Demo.repo Demo.posix Demo.toolchain TestModule.tasks = inr r
    /\ invoke_by_name r "test.unit" ∅ (Demo.world ∅) = inr run
    /\ run_state run = (task_body TestModule.unit_task ∅ (Demo.world ∅)).1
    /\ run_executed run = ["unit"].
Proof.
  destruct (test_collection_is_mounted_under_prefix Demo.repo Demo.posix Demo.toolchain
              TestModule.tasks) as (r & Hns & _ & Hinvoke & _).
  assert (TestModule.tasks !! "unit" = Some TestModule.unit_task) as Hunit
    by (vm_compute; reflexivity).
  destruct (Hinvoke "unit" TestModule.unit_task ∅ (Demo.world ∅) Hunit)
    as (run & Hrun & _ & Hbody).
  exists r, run. split; [exact Hns|]. split; [exact Hrun|].
  apply Hbody. reflexivity.
Defined.

(** Invoking [test.unit] on the example world runs the body of [unit]: its
    one command is issued. *)
Example demo_invoke_test_unit :
  match ns Demo.repo Demo.posix Demo.toolchain TestModule.tasks with
  | inr r =>
      match invoke_by_name r "test.unit" ∅ (Demo.world ∅) with
      | inr run =>
          map cmd_line (issued (run_state run)) = ["dotnet test"]
          /\ run_failure run = None
      | inl _ => False
      end
  | inl _ => False
  end.
Proof. by vm_compute. Qed.

(** [run_example] with and without a filter. *)
Example demo_run_example :
  let run_with filter :=
    run_example Demo.repo Demo.posix Demo.toolchain filter "http://localhost:8080"
      (Demo.world ∅) in
  map cmd_line (issued (run_with None).1)
  = ["dotnet test --logger console;verbosity=normal"]
  /\ map cmd_line (issued (run_with (Some "LogMessage")).1)
     = ["dotnet test --logger console;verbosity=normal --filter LogMessage"]
  /\ map cmd_line (issued (run_with (Some "")).1)
     = ["dotnet test --logger console;verbosity=normal"]
  /\ environ (run_with None).1 = ∅.
Proof. by vm_compute. Qed.

(** * Further properties of the tasks *)

Lemma scoped_is_dir p : scoped (is_dir p).
Proof. by intros s. Qed.

Lemma scoped_path_exists p : scoped (path_exists p).
Proof. by intros s. Qed.

Lemma scoped_rglob root name : scoped (rglob root name).
Proof. by intros s. Qed.

Lemma scoped_glob dir suffix : scoped (glob dir suffix).
Proof. by intros s. Qed.

Lemma keeps_fs_ret {X} (x : X) : keeps_fs (ret x).
Proof. by intros s. Qed.

Lemma keeps_fs_bind {X Y} (m : T X) (k : X -> T Y) :
  keeps_fs m -> (forall x, keeps_fs (k x)) -> keeps_fs (bind m k).
Proof.
  intros Hm Hk s. unfold bind. specialize (Hm s).
  destruct (m s) as [s1 [e|x]]; [done|].
  specialize (Hk x s1). simpl in *. congruence.
Qed.

Lemma keeps_fs_for_each {X} (l : list X) (body : X -> T unit) :
  (forall x, keeps_fs (body x)) -> keeps_fs (for_each l body).
Proof.
  intros Hbody. induction l as [|x l IH]; simpl.
  - apply keeps_fs_ret.
  - apply keeps_fs_bind; [apply Hbody|done].
Qed.

Lemma keeps_fs_print line : keeps_fs (print line).
Proof. by intros s. Qed.

Lemma keeps_fs_cd {X} d (body : T X) : keeps_fs body -> keeps_fs (cd d body).
Proof.
  intros Hbody s. unfold cd.
  specialize (Hbody (set_cwd_stack (cwd_stack s ++ [d]) s)).
  by destruct (body _) as [s' o].
Qed.

Section BodyFacts.
Variable repo_dir : Path.
Variable str : Path -> string.
Variable spawn : Command -> gmap string string -> FS -> FS * Z.

Lemma scoped_clean : scoped (clean repo_dir).
Proof.
  unfold clean.
  repeat (apply scoped_bind; [|intros ?]);
    auto using scoped_rglob, scoped_path_exists, scoped_when, scoped_rmtree.
  all: apply scoped_for_each; intros p;
    (apply scoped_bind; [apply scoped_is_dir|intros d]);
    apply scoped_when, scoped_rmtree.
Qed.

Lemma scoped_publish source api_key : scoped (publish repo_dir str spawn source api_key).
Proof.
  unfold publish. apply scoped_bind.
  { destruct api_key; [apply scoped_ret|apply scoped_getenv]. }
  intros [key|]; [|apply scoped_raise].
  case_bool_decide; [apply scoped_raise|].
  apply scoped_bind; [apply scoped_glob|intros pkgs].
  apply scoped_for_each. intros pkg.
  destruct (endswith _ _); [apply scoped_ret|apply scoped_run].
Qed.

Lemma scoped_restore_local : scoped (restore_local repo_dir str spawn).
Proof.
  unfold restore_local. apply scoped_bind; [apply scoped_path_exists|intros ex].
  destruct ex; cbn [negb].
  - apply scoped_bind; [apply scoped_print|intros _].
    apply scoped_for_each. intros proj.
    apply scoped_bind; [apply scoped_print|intros _]. apply scoped_run.
  - apply scoped_bind; [apply scoped_print|intros _]. apply scoped_print.
Qed.

Lemma scoped_run_example filter server_url :
  scoped (run_example repo_dir str spawn filter server_url).
Proof.
  unfold run_example. apply scoped_bind; [apply scoped_print|intros _].
  apply scoped_cd, scoped_run.
Qed.
End BodyFacts.

(** A property of the world kept by every body of a list of calls is kept
    by running them. *)
Lemma run_calls_preserves {S E A} (P : S -> Prop) (l : list (Task S E A * A)) r :
  (forall c, c ∈ l -> forall s, P s -> P (task_body c.1 c.2 s).1) ->
  P (run_state r) -> P (run_state (run_calls l r)).
Proof.
  revert r. induction l as [|c l IH]; intros r Hl Hr; [done|].
  change (run_calls (c :: l) r) with (run_calls l (run_call c.1 c.2 r)).
  apply IH; [intros c' Hc'; apply Hl; by right|].
  unfold run_call. destruct (run_failure r); [done|].
  case_bool_decide; [done|].
  specialize (Hl c (list_elem_of_here _ _) (run_state r) Hr).
  by destruct (task_body c.1 c.2 (run_state r)) as [s' [e|x]].
Qed.

Section Extras.
Variable repo_dir : Path.
Variable str : Path -> string.
Variable spawn : Command -> gmap string string -> FS -> FS * Z.

(** X1. No task leaks a directory scope or changes the process
    environment: after an invocation of any of the six tasks, with its
    prerequisites, the directory stack and the environment are what they
    were, whether the invocation succeeded or failed. *)
Theorem invocations_restore_stack_and_environment :
  Forall (fun t : Task' =>
            forall kwargs s,
              cwd_stack (run_state (invoke t kwargs s)) = cwd_stack s
              /\ environ (run_state (invoke t kwargs s)) = environ s)
    [build_task repo_dir str spawn; clean_task repo_dir; pack_task repo_dir str spawn;
     publish_task repo_dir str spawn; restore_local_task repo_dir str spawn;
     run_example_task repo_dir str spawn].
Proof.
  repeat apply List.Forall_cons; try apply List.Forall_nil;
    intros kwargs s; unfold invoke, resolve_and_run;
    rewrite walk_run_calls;
    apply (run_calls_preserves
             (fun s' => cwd_stack s' = cwd_stack s /\ environ s' = environ s));
    try done;
    intros c Hc s' [H1 H2]; rewrite <- H1, <- H2;
    unfold calls_of in Hc; simpl in Hc;
    repeat (apply elem_of_cons in Hc as [->|Hc]); try (by apply elem_of_nil in Hc);
    simpl;
    first [ apply scoped_build | apply scoped_clean | apply scoped_pack
          | apply scoped_publish | apply scoped_restore_local
          | apply scoped_run_example ].
Qed.

(** *** The key of [publish] *)

Lemma push_loop_outcome key source pkgs s :
  let loop := for_each pkgs (fun pkg =>
                if endswith (path_name pkg) ".snupkg" then ret tt
                else run spawn (push_command str pkg key source) ∅) in
  (loop s).2 = Returned tt
  \/ exists pkg code,
       pkg ∈ pkgs /\ code <> 0%Z
       /\ (loop s).2 = Raised (CommandFailed (push_command str pkg key source) code).
Proof.
  intros loop. subst loop. revert s.
  induction pkgs as [|pkg pkgs IH]; intros s; simpl; [by left|].
  destruct (endswith (path_name pkg) ".snupkg").
  - rewrite (bind_returned _ _ s s tt) by done.
    destruct (IH s) as [?|(p & code & ? & ? & ?)]; [by left|right].
    exists p, code. split; [by right|done].
  - pose proof (run_spec spawn (push_command str pkg key source) ∅ s) as Hrun.
    simpl in Hrun. case_bool_decide as Hcode.
    + rewrite (bind_returned _ _ _ _ _ Hrun).
      destruct (IH (MkState (spawn (MkCommand (push_command str pkg key source)
                                      (last (cwd_stack s)) ∅) (∅ ∪ environ s) (fs s)).1
                      (environ s) (cwd_stack s)
                      (issued s ++ [MkCommand (push_command str pkg key source)
                                      (last (cwd_stack s)) ∅]) (stdout s)))
        as [?|(p & code & ? & ? & ?)]; [by left|right].
      exists p, code. split; [by right|done].
    + rewrite (bind_raised _ _ _ _ _ Hrun). right.
      eexists pkg, _. split; [by left|done].
Qed.

Lemma publish_unfold source api_key s :
  publish repo_dir str spawn source api_key s
  = match effective_key api_key s with
    | None => (s, Raised missing_key)
    | Some key =>
        if bool_decide (key = "") then (s, Raised missing_key)
        else for_each (fs_glob (repo_dir // "artifacts") ".nupkg" (fs s)) (fun pkg =>
               if endswith (path_name pkg) ".snupkg" then ret tt
               else run spawn (push_command str pkg key source) ∅) s
    end.
Proof.
  unfold publish, effective_key, bind, getenv, glob, ret, raise.
  destruct api_key as [k|]; simpl.
  - by case_bool_decide.
  - destruct (environ s !! "NUGET_API_KEY") as [k|]; [|done]. by case_bool_decide.
Qed.

(** X2. [publish] raises the missing-key error exactly when the key it
    ends up with is absent or empty, and then it has changed nothing. An
    explicit key is never replaced by the one of the environment: an
    explicit empty key fails even when [NUGET_API_KEY] is set, and an
    explicit non-empty key is the one used. With a usable key the only
    failure is that of a push command. *)
Theorem publish_key_resolution source api_key s :
  let out := publish repo_dir str spawn source api_key s in
  (out.2 = Raised missing_key
   <-> effective_key api_key s = None \/ effective_key api_key s = Some "")
  /\ (out.2 = Raised missing_key -> out.1 = s)
  /\ (forall k, effective_key (Some k) s = Some k)
  /\ (forall key, effective_key api_key s = Some key -> key <> "" ->
      out.2 = Returned tt
      \/ exists pkg code,
           pkg ∈ fs_glob (repo_dir // "artifacts") ".nupkg" (fs s) /\ code <> 0%Z
           /\ out.2 = Raised (CommandFailed (push_command str pkg key source) code)).
Proof.
  intros out. subst out. rewrite publish_unfold.
  destruct (effective_key api_key s) as [key|] eqn:Hkey; simpl.
  - case_bool_decide as Hempty; simpl.
    + subst key. split; [by split; auto|]. split; [done|]. split; [done|].
      intros key [= <-] Hne. done.
    + pose proof (push_loop_outcome key source
                    (fs_glob (repo_dir // "artifacts") ".nupkg" (fs s)) s) as Hloop.
      simpl in Hloop.
      split.
      { split.
        - intros Hraise. destruct Hloop as [Hl|(p & c & _ & _ & Hl)]; rewrite Hl in Hraise;
            discriminate.
        - intros [?|[= ?]]; [done|]. by subst. }
      split.
      { intros Hraise. destruct Hloop as [Hl|(p & c & _ & _ & Hl)]; rewrite Hl in Hraise;
          discriminate. }
      split; [done|]. intros key' [= <-] _. exact Hloop.
  - split; [by split; auto|]. split; [done|]. split; [done|]. by intros key [=].
Qed.

(** *** [restore_local] with the local feed in place *)

(** X3. When the local server package directory exists, [restore_local]
    announces the feed and then goes through the four projects in the order
    of its list: it announces the project and issues [dotnet restore] for
    it, on the filesystem the restores before it left. It goes on as long
    as the restores exit with status zero and stops at the first one that
    does not, whose failure it raises; it returns exactly when all four exit
    with zero. *)
Theorem restore_local_with_feed s :
  let server_nuget_dir :=
    parent repo_dir // "testrift-server" // "nuget" // "TestRift.Server"
      // "bin" // "Release" in
  fs_exists server_nuget_dir (fs s) = true ->
  let projects := restore_projects repo_dir in
  let cmd := fun proj =>
    MkCommand ("dotnet restore " +:+ (dquote +:+ str proj +:+ dquote) +:+ " --force")
      (last (cwd_stack s)) ∅ in
  let env := ∅ ∪ environ s in
  let cmds := map cmd projects in
  let status := fun i c => (spawn c env (spawned spawn env (take i cmds) (fs s))).2 in
  let out := restore_local repo_dir str spawn s in
  exists k,
    1 <= k <= 4
    /\ issued out.1 = issued s ++ take k cmds
    /\ stdout out.1
       = stdout s
           ++ ("Using local TestRift.Server feed: " +:+ str server_nuget_dir)
              :: map restoring_line (take k projects)
    /\ fs out.1 = spawned spawn env (take k cmds) (fs s)
    /\ (forall i c, cmds !! i = Some c -> i + 1 < k -> status i c = 0%Z)
    /\ ((k = 4
         /\ (forall i c, cmds !! i = Some c -> status i c = 0%Z)
         /\ out.2 = Returned tt)
        \/ (exists c,
              cmds !! (k - 1) = Some c /\ status (k - 1) c <> 0%Z
              /\ out.2 = Raised (CommandFailed (cmd_line c) (status (k - 1) c)))).
Proof.
  intros d Hd projects cmd env cmds status out. subst out d.
  unfold restore_local.
  rewrite (bind_returned _ _ s s true) by (unfold path_exists; by rewrite Hd).
  cbn [negb].
  set (s0 := MkState (fs s) (environ s) (cwd_stack s) (issued s)
               (stdout s ++ ["Using local TestRift.Server feed: "
                               +:+ str (parent repo_dir // "testrift-server" // "nuget"
                                          // "TestRift.Server" // "bin" // "Release")])).
  rewrite (bind_returned (print _) _ s s0 tt) by reflexivity.
  set (body := fun proj : Path =>
         print (String (Ascii.ascii_of_nat 10) "Restoring "
                  +:+ path_name (parent proj) +:+ "...") ;;;
         run spawn (restore_command str proj) ∅).
  destruct (fail_fast_loop spawn
              (fun proj => "dotnet restore " +:+ (dquote +:+ str proj +:+ dquote)
                             +:+ " --force")
              (fun proj => [restoring_line proj]) body projects) with (s := s0)
    as (k & Hle & Hissued & Hstdout & Hfs & _ & _ & Hbefore & Hend).
  { intros proj _ s1. unfold body.
    rewrite (bind_returned (print _) _ s1
               (MkState (fs s1) (environ s1) (cwd_stack s1) (issued s1)
                  (stdout s1 ++ [restoring_line proj])) tt) by reflexivity.
    rewrite run_spec. reflexivity. }
  change (for_each _ _ s0) with (for_each projects body s0).
  exists k. split.
  { split; [|exact Hle].
    destruct Hend as [(-> & _)|(_ & _ & Hpos & _)]; [simpl|]; lia. }
  split; [exact Hissued|]. split.
  { rewrite Hstdout. subst s0. cbn [stdout]. rewrite <- app_assoc. cbn [app].
    do 2 f_equal.
    clear. induction (take k projects) as [|? ? IH]; simpl; [done|by rewrite IH]. }
  split; [exact Hfs|]. split; [exact Hbefore|].
  destruct Hend as [(-> & Hall & Hret)|(c & Hc & _ & Hst & Hret)]; [left|right].
  - done.
  - by exists c.
Qed.

(** *** [build] *)

(** X4. [build] fails fast. When the library build exits with a status
    other than zero, the Example build is not attempted and its banner is
    not printed; the failure carries the status of the command that failed.
    [build] returns exactly when both commands exit with zero, and the
    second command runs on the filesystem the first one left. *)
Theorem build_fails_fast s :
  let c1 := MkCommand "dotnet build" (Some (str (repo_dir // "src" // "TestRift.NUnit"))) ∅ in
  let c2 := MkCommand "dotnet build" (Some (str (repo_dir // "Example"))) ∅ in
  let out1 := spawn c1 (∅ ∪ environ s) (fs s) in
  let out2 := spawn c2 (∅ ∪ environ s) out1.1 in
  let out := build repo_dir str spawn s in
  (out.2 = Returned tt <-> out1.2 = 0%Z /\ out2.2 = 0%Z)
  /\ (out1.2 <> 0%Z ->
      out.2 = Raised (CommandFailed "dotnet build" out1.2)
      /\ issued out.1 = issued s ++ [c1]
      /\ stdout out.1 = stdout s ++ ["Building TestRift.NUnit library..."]
      /\ fs out.1 = out1.1)
  /\ (out1.2 = 0%Z ->
      fs out.1 = out2.1
      /\ stdout out.1
         = stdout s ++ ["Building TestRift.NUnit library..."; "Building Example tests..."]
      /\ (out2.2 <> 0%Z -> out.2 = Raised (CommandFailed "dotnet build" out2.2))).
Proof.
  intros c1 c2 out1 out2 out. subst out.
  rewrite build_spec. fold c1 c2 out1 out2.
  repeat case_bool_decide; simpl; repeat split; try done; try tauto; naive_solver.
Qed.

(** *** The filesystem is written by [clean], [pack] and the toolchain only *)

Lemma keeps_fs_run command env : inert spawn -> keeps_fs (run spawn command env).
Proof. intros Hinert s. rewrite run_spec. simpl. apply Hinert. Qed.

(** X5. [build], [publish], [restore_local] and [run_example] create and
    delete nothing themselves: with a toolchain that leaves the filesystem
    alone, the filesystem after each of them is the one before, on every
    exit path. [pack] at most adds the [artifacts] directory. *)
Theorem only_clean_and_pack_write :
  inert spawn ->
  keeps_fs (build repo_dir str spawn)
  /\ (forall source api_key, keeps_fs (publish repo_dir str spawn source api_key))
  /\ keeps_fs (restore_local repo_dir str spawn)
  /\ (forall filter server_url, keeps_fs (run_example repo_dir str spawn filter server_url))
  /\ (forall configuration s,
        fs (pack repo_dir str spawn configuration s).1 = fs s
        \/ fs (pack repo_dir str spawn configuration s).1
           = fs s ++ [MkEntry (repo_dir // "artifacts") Dir false]).
Proof.
  intros Hinert.
  assert (forall command env, keeps_fs (run spawn command env)) as Hrun
    by (intros; by apply keeps_fs_run).
  split.
  { unfold build. repeat (apply keeps_fs_bind; [|intros _]);
      auto using keeps_fs_print, keeps_fs_cd. }
  split.
  { intros source api_key s. rewrite publish_unfold.
    destruct (effective_key api_key s); [|done].
    case_bool_decide; [done|].
    apply keeps_fs_for_each. intros pkg.
    destruct (endswith _ _); [apply keeps_fs_ret|apply Hrun]. }
  split.
  { unfold restore_local. apply keeps_fs_bind; [done|intros ex].
    destruct ex; cbn [negb].
    - apply keeps_fs_bind; [apply keeps_fs_print|intros _].
      apply keeps_fs_for_each. intros proj.
      apply keeps_fs_bind; [apply keeps_fs_print|intros _]. apply Hrun.
    - apply keeps_fs_bind; [apply keeps_fs_print|intros _]. apply keeps_fs_print. }
  split.
  { intros filter server_url. unfold run_example.
    apply keeps_fs_bind; [apply keeps_fs_print|intros _].
    apply keeps_fs_cd, Hrun. }
  intros configuration s.
  pose proof (pack_spec repo_dir str spawn configuration s) as Hpack. simpl in Hpack.
  unfold mkdir_raw in Hpack.
  repeat case_match; simplify_eq; simpl in *;
    try (rewrite Hpack; simpl; by left);
    destruct Hpack as [_ ->]; simpl; rewrite Hinert; by auto.
Qed.

(** *** What an invocation of [publish] issues *)

Lemma publish_issues_pushes source api_key s :
  exists pushes,
    issued (publish repo_dir str spawn source api_key s).1 = issued s ++ pushes
    /\ Forall (fun c => is_push c = true /\ cmd_cwd c = last (cwd_stack s)) pushes.
Proof.
  rewrite publish_unfold.
  destruct (effective_key api_key s) as [key|];
    [|exists []; by rewrite app_nil_r].
  case_bool_decide; [exists []; by rewrite app_nil_r|].
  destruct (push_loop str spawn key source
              (fs_glob (repo_dir // "artifacts") ".nupkg" (fs s)) s)
    as (k & _ & Hissued & _); [apply glob_nupkg_not_snupkg|].
  eexists. split; [exact Hissued|].
  apply Forall_map, Forall_forall. intros pkg _. done.
Qed.

(** X6. An invocation of [publish] issues nothing at all when [artifacts]
    could not be created, and otherwise the [pack] command followed by push
    commands only, the pushes from the directory that was current at the
    call. The prerequisite [pack] runs with its default configuration
    [Release], whatever arguments [publish] was given. *)
Theorem publish_invocation_commands kwargs s :
  let r := invoke (publish_task repo_dir str spawn) kwargs s in
  let pack_release := MkCommand (pack_command "Release")
                        (Some (str (repo_dir // "src" // "TestRift.NUnit"))) ∅ in
  (issued (run_state r) = issued s /\ run_executed r = ["clean"; "pack"]
   /\ exists e, run_failure r = Some e /\ forall cmd code, e <> CommandFailed cmd code)
  \/ exists pushes,
       issued (run_state r) = issued s ++ pack_release :: pushes
       /\ Forall (fun c => is_push c = true /\ cmd_cwd c = last (cwd_stack s)) pushes
       /\ (pushes <> [] -> run_executed r = ["clean"; "pack"; "publish"]).
Proof.
  intros r pack_release. subst r.
  destruct (invoke_publish repo_dir str spawn kwargs s)
    as (s1 & Hclean & [Hframe _] & ->).
  destruct Hframe as (Henv1 & Hstack1 & Hissued1 & _).
  pose proof (pack_spec repo_dir str spawn "Release" s1) as Hpack. simpl in Hpack.
  destruct (mkdir_raw (repo_dir // "artifacts") true (fs s1)) as [fs1 [e|]] eqn:Hmk.
  { left. rewrite Hpack. simpl. split; [done|]. split; [done|].
    exists e. split; [done|]. intros cmd code ->.
    unfold mkdir_raw in Hmk. repeat case_match; simplify_eq. }
  right. destruct Hpack as [_ ->]. rewrite Hissued1. fold pack_release.
  case_bool_decide; simpl; [|exists []; by repeat split].
  set (s2 := MkState _ _ _ _ _).
  destruct (publish_issues_pushes
              (default "https://api.nuget.org/v3/index.json" (kwargs !! "source"))
              (kwargs !! "api_key") s2) as (pushes & Hissued & Hpushes).
  exists pushes.
  destruct (publish _ _ _ _ _ s2) as [s3 [e|[]]]; simpl in *;
    (split; [by rewrite Hissued, <- app_assoc|]);
    (split; [by rewrite <- Hstack1|done]).
Qed.

End Extras.

(** *** What [clean] removes and what it keeps *)

Lemma blocked_iff fs e :
  blocked fs e
  <-> exists e', e' ∈ fs /\ e_locked e' = true /\ e_path e `prefix_of` e_path e'.
Proof. unfold blocked. rewrite Exists_exists. naive_solver. Qed.

Lemma fs_is_dir_iff p fs :
  fs_is_dir p fs = true <-> exists e, e ∈ fs /\ e_path e = p /\ e_kind e = Dir.
Proof.
  unfold fs_is_dir. rewrite bool_decide_eq_true, Exists_exists. naive_solver.
Qed.

Lemma fs_exists_iff p fs :
  fs_exists p fs = true <-> exists e, e ∈ fs /\ e_path e = p.
Proof.
  unfold fs_exists. rewrite bool_decide_eq_true, Exists_exists. naive_solver.
Qed.

Lemma fs_is_dir_mono p (fs fs' : FS) :
  (forall e, e ∈ fs' -> e ∈ fs) -> fs_is_dir p fs' = true -> fs_is_dir p fs = true.
Proof. rewrite !fs_is_dir_iff. naive_solver. Qed.

Lemma filter_all {X} (P : X -> Prop) `{!forall x, Decision (P x)} (l : list X) :
  (forall x, x ∈ l -> P x) -> filter P l = l.
Proof.
  induction l as [|x l IH]; intros Hl; [done|].
  rewrite filter_cons_True by (apply Hl; left).
  f_equal. apply IH. intros y Hy. apply Hl. by right.
Qed.

(** An entry survives a removal unless the removed path is a directory, the
    entry lies below it and nothing locked holds it back. *)
Lemma elem_of_remove_tree p fs e :
  e ∈ remove_tree p fs
  <-> e ∈ fs /\ (fs_is_dir p fs = true -> p `prefix_of` e_path e -> blocked fs e).
Proof.
  unfold remove_tree. destruct (fs_is_dir p fs).
  - rewrite list_elem_of_filter. split.
    + intros [[Hn|Hb] He]; (split; [done|]); [by intros _ ?|done].
    + intros [He Hb]. split; [|done].
      destruct (decide (p `prefix_of` e_path e)); [right; by apply Hb|by left].
  - split; [by intros ?|by intros [? _]].
Qed.

Lemma remove_tree_locked p fs e :
  e ∈ fs -> e_locked e = true -> e ∈ remove_tree p fs.
Proof.
  intros He Hl. apply elem_of_remove_tree. split; [done|]. intros _ _.
  apply blocked_iff. by exists e.
Qed.

Lemma remove_tree_blocked p fs e : blocked (remove_tree p fs) e <-> blocked fs e.
Proof.
  rewrite !blocked_iff. split; intros (e' & He' & Hl & Hp); exists e'.
  - apply elem_of_remove_tree in He' as [? _]. done.
  - split; [by apply remove_tree_locked|done].
Qed.

Lemma elem_of_remove_trees l fs e : e ∈ remove_trees l fs -> e ∈ fs.
Proof.
  revert fs. induction l as [|p l IH]; intros fs; simpl; [done|].
  intros He%IH. by apply elem_of_remove_tree in He as [? _].
Qed.

Lemma remove_trees_blocked l fs e : blocked (remove_trees l fs) e <-> blocked fs e.
Proof.
  revert fs. induction l as [|p l IH]; intros fs; simpl; [done|].
  by rewrite IH, remove_tree_blocked.
Qed.

Lemma remove_trees_keeps l fs e :
  e ∈ fs -> (forall p, p ∈ l -> ~ p `prefix_of` e_path e) \/ blocked fs e ->
  e ∈ remove_trees l fs.
Proof.
  revert fs. induction l as [|p l IH]; intros fs He Hl; simpl; [done|].
  apply IH.
  - apply elem_of_remove_tree. split; [done|]. intros _ Hp.
    destruct Hl as [Hl|Hb]; [|done]. destruct (Hl p); [by left|done].
  - destruct Hl as [Hl|Hb]; [left|right; by apply remove_tree_blocked].
    intros q Hq. apply Hl. by right.
Qed.

Lemma remove_trees_removed l fs e p :
  e ∈ remove_trees l fs -> p ∈ l -> fs_is_dir p (remove_trees l fs) = true ->
  p `prefix_of` e_path e -> blocked fs e.
Proof.
  revert fs. induction l as [|q l IH]; intros fs He Hp Hd Hpre; simpl in *.
  { by apply elem_of_nil in Hp. }
  apply elem_of_cons in Hp as [->|Hp].
  - pose proof (elem_of_remove_trees _ _ _ He) as He1.
    apply elem_of_remove_tree in He1 as [_ Hb]. apply Hb; [|done].
    eapply fs_is_dir_mono; [|eapply fs_is_dir_mono; [|exact Hd]].
    + intros x Hx. by apply elem_of_remove_tree in Hx as [? _].
    + apply elem_of_remove_trees.
  - apply (remove_tree_blocked q). by apply IH.
Qed.

Lemma elem_of_fs_rglob root name fs p :
  p ∈ fs_rglob root name fs
  <-> exists e, e ∈ fs /\ e_path e = p /\ root `prefix_of` parent p /\ last p = Some name.
Proof.
  unfold fs_rglob. rewrite list_elem_of_fmap. split.
  - intros (e & -> & [[? ?] ?]%list_elem_of_filter). by exists e.
  - intros (e & He & <- & ? & ?). exists e. split; [done|].
    by apply list_elem_of_filter.
Qed.

Section CleanFs.
Variable root : Path.

Lemma elem_of_clean_fs fs e : e ∈ clean_fs root fs -> e ∈ fs.
Proof.
  unfold clean_fs. intros [He _]%elem_of_remove_tree.
  by apply elem_of_remove_trees, elem_of_remove_trees in He.
Qed.

Lemma clean_fs_blocked fs e : blocked (clean_fs root fs) e <-> blocked fs e.
Proof. unfold clean_fs. by rewrite remove_tree_blocked, !remove_trees_blocked. Qed.

Lemma clean_fs_keeps fs e :
  e ∈ fs ->
  (forall p, clean_target root p -> ~ p `prefix_of` e_path e) \/ blocked fs e ->
  e ∈ clean_fs root fs.
Proof.
  intros He Hk. unfold clean_fs.
  assert (forall name fs', (name = "bin" \/ name = "obj") ->
            forall p, p ∈ fs_rglob root name fs' -> clean_target root p) as Htarget.
  { intros name fs' Hname p (e' & _ & _ & Hroot & Hlast)%elem_of_fs_rglob.
    left. split; [done|]. destruct Hname as [-> | ->]; auto. }
  set (fs1 := remove_trees (fs_rglob root "bin" fs) fs).
  assert (e ∈ fs1) as He1.
  { apply remove_trees_keeps; [done|]. destruct Hk as [Hk|Hb]; [left|by right].
    intros p Hp. eapply Hk, Htarget; [|exact Hp]. by left. }
  set (fs2 := remove_trees (fs_rglob root "obj" fs1) fs1).
  assert (e ∈ fs2) as He2.
  { apply remove_trees_keeps; [done|]. destruct Hk as [Hk|Hb]; [left|right].
    - intros p Hp. eapply Hk, Htarget; [|exact Hp]. by right.
    - by apply remove_trees_blocked. }
  apply elem_of_remove_tree. split; [done|]. intros _ Hp.
  destruct Hk as [Hk|Hb].
  - destruct (Hk (root // "artifacts")); [by right|done].
  - by apply remove_trees_blocked, remove_trees_blocked.
Qed.

Lemma clean_fs_removed fs e p :
  e ∈ clean_fs root fs -> clean_target root p ->
  fs_is_dir p (clean_fs root fs) = true ->
  p `prefix_of` e_path e -> blocked fs e.
Proof.
  intros He Htarget Hd Hpre. unfold clean_fs in *.
  set (fs1 := remove_trees (fs_rglob root "bin" fs) fs) in *.
  set (fs2 := remove_trees (fs_rglob root "obj" fs1) fs1) in *.
  assert (forall x, x ∈ remove_tree (root // "artifacts") fs2 -> x ∈ fs2) as H32
    by (intros x Hx; by apply elem_of_remove_tree in Hx as [? _]).
  assert (forall x, x ∈ fs2 -> x ∈ fs1) as H21 by apply elem_of_remove_trees.
  assert (forall x, x ∈ fs1 -> x ∈ fs) as H10 by apply elem_of_remove_trees.
  pose proof Hd as (d & Hd3 & Hdp & Hdk)%fs_is_dir_iff.
  destruct Htarget as [[Hroot [Hlast|Hlast]]| ->].
  - apply (remove_trees_removed (fs_rglob root "bin" fs) fs e p); fold fs1.
    + auto.
    + apply elem_of_fs_rglob. exists d. auto.
    + eapply fs_is_dir_mono; [|exact Hd]. auto.
    + done.
  - apply (remove_trees_blocked (fs_rglob root "bin" fs)). fold fs1.
    apply (remove_trees_removed (fs_rglob root "obj" fs1) fs1 e p); fold fs2.
    + auto.
    + apply elem_of_fs_rglob. exists d. auto.
    + eapply fs_is_dir_mono; [|exact Hd]. auto.
    + done.
  - apply (remove_trees_blocked (fs_rglob root "bin" fs)). fold fs1.
    apply (remove_trees_blocked (fs_rglob root "obj" fs1)). fold fs2.
    apply elem_of_remove_tree in He as [_ Hb]. apply Hb; [|done].
    eapply fs_is_dir_mono; [|exact Hd]. auto.
Qed.

(** A filesystem on which [clean] has nothing left to do. *)
Lemma remove_tree_stable fs p :
  (forall e, e ∈ fs -> fs_is_dir p fs = true -> p `prefix_of` e_path e -> blocked fs e) ->
  remove_tree p fs = fs.
Proof.
  intros Hst. unfold remove_tree. destruct (fs_is_dir p fs) eqn:Hd; [|done].
  apply filter_all. intros e He.
  destruct (decide (p `prefix_of` e_path e)); [right; by apply Hst|by left].
Qed.

Lemma remove_trees_stable fs l :
  (forall p e, p ∈ l -> e ∈ fs -> fs_is_dir p fs = true -> p `prefix_of` e_path e ->
               blocked fs e) ->
  remove_trees l fs = fs.
Proof.
  induction l as [|p l IH]; intros Hst; simpl; [done|].
  rewrite remove_tree_stable by (intros e; apply Hst; by left).
  apply IH. intros q e Hq. apply Hst. by right.
Qed.

Lemma clean_fs_idempotent fs : clean_fs root (clean_fs root fs) = clean_fs root fs.
Proof.
  set (fs' := clean_fs root fs).
  assert (forall p e, clean_target root p -> e ∈ fs' -> fs_is_dir p fs' = true ->
                      p `prefix_of` e_path e -> blocked fs' e) as Hst.
  { intros p e Ht He Hd Hp. apply clean_fs_blocked. by eapply clean_fs_removed. }
  assert (forall name, (name = "bin" \/ name = "obj") ->
            forall p, p ∈ fs_rglob root name fs' -> clean_target root p) as Htarget.
  { intros name Hname p (e' & _ & _ & Hroot & Hlast)%elem_of_fs_rglob.
    left. split; [done|]. destruct Hname as [-> | ->]; auto. }
  unfold clean_fs at 1.
  rewrite (remove_trees_stable fs' (fs_rglob root "bin" fs'))
    by (intros p e Hp; apply Hst; eapply Htarget; [by left|done]).
  rewrite (remove_trees_stable fs' (fs_rglob root "obj" fs'))
    by (intros p e Hp; apply Hst; eapply Htarget; [by right|done]).
  apply remove_tree_stable. intros e. apply Hst. by right.
Qed.
End CleanFs.

Lemma remove_tree_not_dir p fs : fs_is_dir p fs = false -> remove_tree p fs = fs.
Proof. intros H. unfold remove_tree. by rewrite H. Qed.

(** An entry that a removal took away lay below the removed directory. *)
Lemma remove_tree_gone q fs d :
  d ∈ fs -> d ∉ remove_tree q fs ->
  fs_is_dir q fs = true /\ q `prefix_of` e_path d.
Proof.
  intros Hd Hgone. destruct (fs_is_dir q fs) eqn:Hq.
  - split; [done|]. destruct (decide (q `prefix_of` e_path d)) as [|Hn]; [done|].
    destruct Hgone. apply elem_of_remove_tree. split; [done|]. by intros _ ?.
  - destruct Hgone. by rewrite remove_tree_not_dir.
Qed.

(** When an entry is taken away, what is left below it is held by a lock. *)
Lemma remove_trees_below_gone l fs d e :
  d ∈ fs -> d ∉ remove_trees l fs -> e ∈ remove_trees l fs ->
  e_path d `prefix_of` e_path e -> blocked fs e.
Proof.
  revert fs. induction l as [|q l IH]; intros fs Hd Hgone He Hpre; simpl in *; [done|].
  destruct (decide (d ∈ remove_tree q fs)) as [Hd1|Hd1].
  - apply (remove_tree_blocked q). by apply IH.
  - destruct (remove_tree_gone q fs d Hd Hd1) as [Hq Hqd].
    apply elem_of_remove_trees, elem_of_remove_tree in He as [_ Hb].
    apply Hb; [done|]. by etrans.
Qed.

Lemma remove_trees_keeps_dirs l fs e :
  e ∈ fs ->
  blocked fs e \/ (forall p, p ∈ l -> fs_is_dir p fs = true -> ~ p `prefix_of` e_path e) ->
  e ∈ remove_trees l fs.
Proof.
  revert fs. induction l as [|p l IH]; intros fs He Hl; simpl; [done|].
  apply IH.
  - apply elem_of_remove_tree. split; [done|]. intros Hd Hp.
    destruct Hl as [Hb|Hl]; [done|]. destruct (Hl p); [by left|done|done].
  - destruct Hl as [Hb|Hl]; [left; by apply remove_tree_blocked|right].
    intros q Hq Hd. apply Hl; [by right|].
    eapply fs_is_dir_mono; [|exact Hd]. intros x Hx.
    by apply elem_of_remove_tree in Hx as [? _].
Qed.

Lemma remove_trees_removed_dirs l fs e p :
  e ∈ remove_trees l fs -> p ∈ l -> fs_is_dir p fs = true ->
  p `prefix_of` e_path e -> blocked fs e.
Proof.
  intros He Hp Hd Hpre.
  destruct (fs_is_dir p (remove_trees l fs)) eqn:Hd'.
  - by eapply remove_trees_removed.
  - apply fs_is_dir_iff in Hd as (d & Hd & <- & Hk).
    apply (remove_trees_below_gone l fs d e); try done.
    intros Hin. assert (fs_is_dir (e_path d) (remove_trees l fs) = true) as Ht
      by (apply fs_is_dir_iff; by exists d).
    congruence.
Qed.

Lemma clean_fs_exact root fs e :
  e ∈ clean_fs root fs
  <-> e ∈ fs
      /\ (blocked fs e
          \/ forall p, clean_target root p -> fs_is_dir p fs = true ->
                       ~ p `prefix_of` e_path e).
Proof.
  assert (forall name fs', (name = "bin" \/ name = "obj") ->
            forall p, p ∈ fs_rglob root name fs' -> clean_target root p) as Htarget.
  { intros name fs' Hname p (e' & _ & _ & Hroot & Hlast)%elem_of_fs_rglob.
    left. split; [done|]. destruct Hname as [-> | ->]; auto. }
  set (fs1 := remove_trees (fs_rglob root "bin" fs) fs).
  set (fs2 := remove_trees (fs_rglob root "obj" fs1) fs1).
  assert (forall x, x ∈ fs2 -> x ∈ fs1) as H21 by apply elem_of_remove_trees.
  assert (forall x, x ∈ fs1 -> x ∈ fs) as H10 by apply elem_of_remove_trees.
  split.
  - intros He. split; [by eapply elem_of_clean_fs|].
    destruct (decide (blocked fs e)) as [Hb|Hnb]; [by left|right].
    intros p Ht Hd Hpre. apply Hnb.
    unfold clean_fs in He. fold fs1 fs2 in He.
    apply elem_of_remove_tree in He as [He2 Hart].
    destruct Ht as [[Hroot Hlast]| ->].
    + pose proof Hd as (d & Hdin & Hdp & Hdk)%fs_is_dir_iff.
      destruct Hlast as [Hlast|Hlast].
      * apply (remove_trees_removed_dirs (fs_rglob root "bin" fs) fs e p); auto.
        apply elem_of_fs_rglob. by exists d.
      * destruct (decide (d ∈ fs1)) as [Hd1|Hd1].
        -- apply (remove_trees_blocked (fs_rglob root "bin" fs)). fold fs1.
           apply (remove_trees_removed_dirs (fs_rglob root "obj" fs1) fs1 e p); auto.
           ++ apply elem_of_fs_rglob. by exists d.
           ++ apply fs_is_dir_iff. by exists d.
        -- apply (remove_trees_below_gone (fs_rglob root "bin" fs) fs d e); auto.
           by rewrite Hdp.
    + pose proof Hd as (d & Hdin & Hdp & Hdk)%fs_is_dir_iff.
      destruct (decide (d ∈ fs1)) as [Hd1|Hd1];
        [destruct (decide (d ∈ fs2)) as [Hd2|Hd2]|].
      * apply (remove_trees_blocked (fs_rglob root "bin" fs)). fold fs1.
        apply (remove_trees_blocked (fs_rglob root "obj" fs1)). fold fs2.
        apply Hart; [|done]. apply fs_is_dir_iff. by exists d.
      * apply (remove_trees_blocked (fs_rglob root "bin" fs)). fold fs1.
        apply (remove_trees_below_gone (fs_rglob root "obj" fs1) fs1 d e); auto.
        by rewrite Hdp.
      * apply (remove_trees_below_gone (fs_rglob root "bin" fs) fs d e); auto.
        by rewrite Hdp.
  - intros [He Hk]. unfold clean_fs. fold fs1 fs2.
    assert (e ∈ fs1) as He1.
    { apply remove_trees_keeps_dirs; [done|]. destruct Hk as [Hb|Hk]; [by left|right].
      intros p Hp. eapply Hk, Htarget; [|exact Hp]. by left. }
    assert (e ∈ fs2) as He2.
    { apply remove_trees_keeps_dirs; [done|].
      destruct Hk as [Hb|Hk]; [left; by apply remove_trees_blocked|right].
      intros p Hp Hd. eapply Hk; [eapply Htarget; [|exact Hp]; by right|].
      eapply fs_is_dir_mono; [|exact Hd]. auto. }
    apply elem_of_remove_tree. split; [done|]. intros Hd Hp.
    destruct Hk as [Hb|Hk]; [by apply remove_trees_blocked, remove_trees_blocked|].
    destruct (Hk (root // "artifacts")); [by right| |done].
    eapply fs_is_dir_mono; [|exact Hd]. auto.
Qed.

Section CleanExtras.
Variable repo_dir : Path.

(** *** [clean] and [clean_fs] *)

Lemma set_fs_same s : set_fs (fs s) s = s.
Proof. by destruct s. Qed.

Lemma rmtree_raw_remove_tree p fs : (rmtree_raw p fs).1 = remove_tree p fs.
Proof. unfold rmtree_raw, remove_tree. by repeat case_match. Qed.

Lemma rmtree_ignoring_errors_spec p s :
  rmtree p true s = (set_fs (remove_tree p (fs s)) s, Returned tt).
Proof.
  unfold rmtree. rewrite <- rmtree_raw_remove_tree.
  by destruct (rmtree_raw p (fs s)) as [fs' [e|]].
Qed.

Lemma clean_loop_body_spec p s :
  (d <- is_dir p ;; when d (rmtree p true)) s
  = (set_fs (remove_tree p (fs s)) s, Returned tt).
Proof.
  unfold bind, is_dir. destruct (fs_is_dir p (fs s)) eqn:Hd; simpl.
  - apply rmtree_ignoring_errors_spec.
  - rewrite remove_tree_not_dir by done. by rewrite set_fs_same.
Qed.

Lemma clean_loop_spec l s :
  for_each l (fun p => d <- is_dir p ;; when d (rmtree p true)) s
  = (set_fs (remove_trees l (fs s)) s, Returned tt).
Proof.
  revert s. induction l as [|p l IH]; intros s; simpl.
  - by rewrite set_fs_same.
  - rewrite (bind_returned _ _ _ _ _ (clean_loop_body_spec p s)). by rewrite IH.
Qed.

Lemma clean_artifacts_spec p s :
  (ex <- path_exists p ;; when ex (rmtree p true)) s
  = (set_fs (remove_tree p (fs s)) s, Returned tt).
Proof.
  unfold bind, path_exists. destruct (fs_exists p (fs s)) eqn:Hex; simpl.
  - apply rmtree_ignoring_errors_spec.
  - rewrite remove_tree_not_dir; [by rewrite set_fs_same|].
    destruct (fs_is_dir p (fs s)) eqn:Hd; [|done].
    apply fs_is_dir_exists in Hd. congruence.
Qed.

Lemma clean_spec s :
  clean repo_dir s = (set_fs (clean_fs repo_dir (fs s)) s, Returned tt).
Proof.
  unfold clean, clean_fs.
  rewrite (bind_returned _ _ s s (fs_rglob repo_dir "bin" (fs s))) by done.
  rewrite (bind_returned _ _ _ _ _ (clean_loop_spec _ s)).
  set (s1 := set_fs _ s).
  rewrite (bind_returned _ _ s1 s1 (fs_rglob repo_dir "obj" (fs s1))) by done.
  rewrite (bind_returned _ _ _ _ _ (clean_loop_spec _ s1)).
  set (s2 := set_fs _ s1).
  by rewrite clean_artifacts_spec.
Qed.

Lemma fs_clean s : fs (clean repo_dir s).1 = clean_fs repo_dir (fs s).
Proof. by rewrite clean_spec. Qed.

Lemma clean_fs_no_target_directory (fs : FS) p :
  (forall e, e ∈ fs -> e_locked e = false) ->
  clean_target repo_dir p ->
  fs_is_dir p (clean_fs repo_dir fs) = false.
Proof.
  intros Hunlocked Ht.
  destruct (fs_is_dir p (clean_fs repo_dir fs)) eqn:Hd; [exfalso|done].
  pose proof Hd as (d & Hdin & Hdp & Hdk)%fs_is_dir_iff.
  pose proof Hdin as [Hd0 Hkeep]%clean_fs_exact.
  assert (~ blocked fs d) as Hnb.
  { intros (e' & He' & Hl & _)%blocked_iff. rewrite Hunlocked in Hl; done. }
  destruct Hkeep as [Hb|Hkeep]; [done|].
  apply (Hkeep p Ht); [|by rewrite Hdp].
  apply fs_is_dir_iff. by exists d.
Qed.

(** X7. [clean] removes exactly the entries that lie at or below a
    directory named [bin] or [obj] anywhere under the repository, or at or
    below the [artifacts] directory, and that no lock holds back; every
    other entry is kept. A file named [bin], [obj] or [artifacts] is not a
    directory and is left alone. *)
Theorem clean_removes_exactly s e :
  e ∈ fs (clean repo_dir s).1
  <-> e ∈ fs s
      /\ (blocked (fs s) e
          \/ forall p, clean_target repo_dir p -> fs_is_dir p (fs s) = true ->
                       ~ p `prefix_of` e_path e).
Proof. rewrite fs_clean. apply clean_fs_exact. Qed.

(** X8. When nothing is locked, [clean] leaves no directory named [bin] or
    [obj] under the repository and no [artifacts] directory. *)
Theorem clean_leaves_no_target_directory s p :
  (forall e, e ∈ fs s -> e_locked e = false) ->
  clean_target repo_dir p ->
  fs_is_dir p (fs (clean repo_dir s).1) = false.
Proof. rewrite fs_clean. apply clean_fs_no_target_directory. Qed.

(** X9. [clean] is idempotent: run again on the world it left, it returns
    and changes nothing. *)
Theorem clean_is_idempotent s :
  clean repo_dir (clean repo_dir s).1 = ((clean repo_dir s).1, Returned tt).
Proof.
  rewrite !clean_spec. simpl. rewrite clean_fs_idempotent.
  by destruct s.
Qed.

Lemma target_not_above_artifacts p name :
  repo_dir `prefix_of` parent p -> last p = Some name -> name <> "artifacts" ->
  ~ p `prefix_of` repo_dir // "artifacts".
Proof.
  intros [k Hk] [l' ->]%last_Some Hname [k' Hpre].
  unfold parent in Hk. rewrite removelast_last in Hk. subst l'.
  unfold path_div in Hpre. rewrite <- !app_assoc in Hpre.
  apply app_inv_head in Hpre.
  destruct k as [|x k]; simpl in Hpre; [injection Hpre as Heq _; congruence|].
  injection Hpre as _ Hnil. by destruct k.
Qed.

End CleanExtras.

Section MoreExtras.
Variable repo_dir : Path.
Variable str : Path -> string.
Variable spawn : Command -> gmap string string -> FS -> FS * Z.

(** X10. A regular file named [artifacts] defeats [pack]: [clean] leaves
    it where it is, the [mkdir] of [pack] then raises [FileExistsError], and
    the invocation fails without having issued any command. *)
Theorem pack_fails_on_artifacts_file kwargs s :
  fs_exists (repo_dir // "artifacts") (fs s) = true ->
  fs_is_dir (repo_dir // "artifacts") (fs s) = false ->
  let r := invoke (pack_task repo_dir str spawn) kwargs s in
  run_failure r = Some (FileExistsError (repo_dir // "artifacts"))
  /\ run_executed r = ["clean"; "pack"]
  /\ issued (run_state r) = issued s
  /\ fs (run_state r) = fs (clean repo_dir s).1
  /\ fs_exists (repo_dir // "artifacts") (fs (run_state r)) = true.
Proof.
  intros Hex Hnd r. subst r.
  destruct (invoke_pack repo_dir str spawn kwargs s) as (s1 & Hclean & [Hframe _] & ->).
  destruct Hframe as (_ & _ & Hissued & _).
  assert (fs_exists (repo_dir // "artifacts") (fs s1) = true) as Hex1.
  { apply fs_exists_iff in Hex as (e & He & Hp). apply fs_exists_iff. exists e.
    split; [|done]. replace s1 with (clean repo_dir s).1 by by rewrite Hclean.
    rewrite fs_clean. apply clean_fs_exact. split; [done|right].
    intros p [[Hroot Hlast]| ->] Hd; rewrite Hp; [|congruence].
    destruct Hlast as [Hlast|Hlast];
      eapply target_not_above_artifacts; done. }
  assert (fs_is_dir (repo_dir // "artifacts") (fs s1) = false) as Hnd1.
  { destruct (fs_is_dir _ (fs s1)) eqn:Hd; [|done].
    replace s1 with (clean repo_dir s).1 in Hd by by rewrite Hclean.
    apply (fs_is_dir_mono _ (fs s)) in Hd; [congruence|].
    intros e He. rewrite fs_clean in He. by apply clean_fs_exact in He as [? _]. }
  pose proof (pack_spec repo_dir str spawn (default "Release" (kwargs !! "configuration")) s1)
    as Hpack.
  simpl in Hpack. unfold mkdir_raw in Hpack. rewrite Hex1, Hnd1 in Hpack. simpl in Hpack.
  rewrite Hpack, Hclean. simpl. done.
Qed.

(** X12. Why [pack] cleans first: when nothing is locked and nothing lies
    below a missing [artifacts], the toolchain of [pack] starts from an
    empty [artifacts] directory. Either [artifacts] could not be created and
    no command is issued, or the one command of [pack] runs on a filesystem
    whose only entry at or below [artifacts] is the directory just
    created. *)
Theorem pack_starts_from_empty_artifacts kwargs s :
  (forall e, e ∈ fs s -> e_locked e = false) ->
  (forall e, e ∈ fs s -> repo_dir // "artifacts" `prefix_of` e_path e ->
             e_path e <> repo_dir // "artifacts" ->
             fs_is_dir (repo_dir // "artifacts") (fs s) = true) ->
  let r := invoke (pack_task repo_dir str spawn) kwargs s in
  let c := MkCommand (pack_command (default "Release" (kwargs !! "configuration")))
             (Some (str (repo_dir // "src" // "TestRift.NUnit"))) ∅ in
  (issued (run_state r) = issued s /\ exists e, run_failure r = Some e)
  \/ exists fs1,
       (forall e, e ∈ fs1 -> repo_dir // "artifacts" `prefix_of` e_path e ->
                  e = MkEntry (repo_dir // "artifacts") Dir false)
       /\ fs_is_dir (repo_dir // "artifacts") fs1 = true
       /\ issued (run_state r) = issued s ++ [c]
       /\ fs (run_state r) = (spawn c (∅ ∪ environ s) fs1).1.
Proof.
  intros Hunlocked Hwf r c. subst r.
  destruct (invoke_pack repo_dir str spawn kwargs s) as (s1 & Hclean & [Hframe _] & ->).
  destruct Hframe as (Henv & _ & Hissued & _).
  assert (s1 = (clean repo_dir s).1) as Hs1 by by rewrite Hclean.
  assert (fs_is_dir (repo_dir // "artifacts") (fs s1) = false) as Hnd.
  { rewrite Hs1, fs_clean. apply clean_fs_no_target_directory; [done|by right]. }
  assert (forall e, e ∈ fs s1 -> repo_dir // "artifacts" `prefix_of` e_path e ->
                    e_path e = repo_dir // "artifacts") as Hbelow.
  { intros e He Hpre. rewrite Hs1, fs_clean in He.
    apply clean_fs_exact in He as [He0 Hkeep].
    destruct (decide (e_path e = repo_dir // "artifacts")) as [|Hne]; [done|exfalso].
    destruct Hkeep as [(e' & He' & Hl & _)%blocked_iff|Hkeep].
    - rewrite Hunlocked in Hl; done.
    - apply (Hkeep (repo_dir // "artifacts")); [by right|by eapply Hwf|done]. }
  pose proof (pack_spec repo_dir str spawn (default "Release" (kwargs !! "configuration")) s1)
    as Hpack.
  simpl in Hpack.
  destruct (mkdir_raw (repo_dir // "artifacts") true (fs s1)) as [fs1 [e|]] eqn:Hmk.
  { left. rewrite Hpack. simpl. split; [done|by exists e]. }
  right. destruct Hpack as [Hdir ->]. exists fs1.
  split.
  { unfold mkdir_raw in Hmk. rewrite Hnd in Hmk.
    destruct (fs_exists (repo_dir // "artifacts") (fs s1)) eqn:Hex;
      [rewrite andb_false_r in Hmk; done|].
    repeat case_match; try discriminate. injection Hmk as <-.
    intros e [He|He%list_elem_of_singleton]%elem_of_app Hpre; [exfalso|done].
    assert (fs_exists (repo_dir // "artifacts") (fs s1) = true); [|congruence].
    apply fs_exists_iff. exists e. split; [done|by apply Hbelow]. }
  split; [done|]. rewrite Henv, Hissued. fold c.
  by case_bool_decide.
Qed.
End MoreExtras.

(** ** The further properties on the example world *)

Lemma restore_local_with_feed_witness :
  let s := MkState DemoVariants.with_feed ∅ [] [] [] in
  let cmds :=
    map (fun proj =>
           MkCommand ("dotnet restore " +:+ (dquote +:+ Demo.posix proj +:+ dquote)
                        +:+ " --force") None ∅)
      (restore_projects Demo.repo) in
  restore_local Demo.repo Demo.posix Demo.toolchain s
  = (MkState DemoVariants.with_feed ∅ [] cmds
       (("Using local TestRift.Server feed: "
           +:+ Demo.posix (parent Demo.repo // "testrift-server" // "nuget"
                             // "TestRift.Server" // "bin" // "Release"))
          :: map restoring_line (restore_projects Demo.repo)),
     Returned tt).
Proof.
  intros s cmds.
  destruct (restore_local_with_feed Demo.repo Demo.posix Demo.toolchain s eq_refl)
    as (k & _ & _ & _ & _ & _ & Hend).
  destruct Hend as [(-> & _ & Hret)|(c & _ & _ & Hret)].
  - vm_compute. reflexivity.
  - vm_compute in Hret. discriminate.
Defined.

(** [restore_local] with a toolchain that fails on the third project: the
    first three commands are issued, the fourth is not, and the failure is
    that of the third with its exit status. *)
Example demo_restore_stops_at_third :
  let third := restore_command Demo.posix
                 (Demo.repo // "tests" // "TestRift.NUnit.Tests.MaxVersions"
                            // "TestRift.NUnit.Tests.MaxVersions.csproj") in
  let out := restore_local Demo.repo Demo.posix (DemoVariants.fails_on third)
               (MkState DemoVariants.with_feed ∅ [] [] []) in
  out.2 = Raised (CommandFailed third 3)
  /\ map cmd_line (issued out.1)
     = map (restore_command Demo.posix) (take 3 (restore_projects Demo.repo))
  /\ length (stdout out.1) = 4.
Proof. by vm_compute. Qed.

(** [publish] with a toolchain that rejects the second package: both
    pushes are issued and the failure is that of the second, with its exit
    status. *)
Example demo_publish_rejected_push :
  let out := publish Demo.repo Demo.posix Hostile.rejects_b "https://feed" (Some "k")
               (MkState Hostile.two_packages ∅ [] [] []) in
  out.2 = Raised (CommandFailed
                    (push_command Demo.posix (Demo.artifacts // "B.1.0.0.nupkg") "k"
                       "https://feed") 7)
  /\ map cmd_line (issued out.1)
     = [push_command Demo.posix (Demo.artifacts // "A.1.0.0.nupkg") "k" "https://feed";
        push_command Demo.posix (Demo.artifacts // "B.1.0.0.nupkg") "k" "https://feed"].
Proof. by vm_compute. Qed.

Lemma only_clean_and_pack_write_witness :
  keeps_fs (build Demo.repo Demo.posix Demo.broken).
Proof.
  apply (only_clean_and_pack_write Demo.repo Demo.posix Demo.broken).
  intros c env fs. reflexivity.
Defined.

Lemma clean_leaves_no_target_directory_witness :
  fs_is_dir (Demo.repo // "src" // "TestRift.NUnit" // "obj")
    (fs (clean Demo.repo (MkState DemoVariants.unlocked ∅ [] [] [])).1)
  = false.
Proof.
  apply (clean_leaves_no_target_directory Demo.repo).
  - intros e (e' & -> & _)%list_elem_of_fmap. reflexivity.
  - left. split; [by exists ["src"; "TestRift.NUnit"]|by right].
Defined.

(** On the example tree itself, where a file of [obj] is locked, the [obj]
    directory stays, and so does the locked file; a second [clean] changes
    nothing. *)
Example demo_clean_twice :
  let once := (clean Demo.repo (Demo.world ∅)).1 in
  fs_is_dir (Demo.repo // "src" // "TestRift.NUnit" // "obj") (fs once) = true
  /\ fs_is_dir (Demo.repo // "src" // "TestRift.NUnit" // "bin") (fs once) = false
  /\ fs_is_dir Demo.artifacts (fs once) = false
  /\ clean Demo.repo once = (once, Returned tt).
Proof. by vm_compute. Qed.

Lemma pack_fails_on_artifacts_file_witness :
  let r := invoke (pack_task Demo.repo Demo.posix Demo.toolchain) ∅
             (MkState DemoVariants.artifacts_file ∅ [] [] []) in
  run_failure r = Some (FileExistsError (Demo.repo // "artifacts"))
  /\ run_executed r = ["clean"; "pack"]
  /\ issued (run_state r) = []
  /\ fs (run_state r)
     = fs (clean Demo.repo (MkState DemoVariants.artifacts_file ∅ [] [] [])).1
  /\ fs_exists (Demo.repo // "artifacts") (fs (run_state r)) = true.
Proof.
  intros r.
  apply (pack_fails_on_artifacts_file Demo.repo Demo.posix Demo.toolchain ∅
           (MkState DemoVariants.artifacts_file ∅ [] [] [])); reflexivity.
Defined.

(** An explicit empty key fails although the environment holds a key; an
    explicit key wins over the one of the environment. *)
Example demo_publish_keys :
  let s := Demo.world {[ "NUGET_API_KEY" := "from-env" ]} in
  publish Demo.repo Demo.posix Demo.toolchain "https://feed" (Some "") s
  = (s, Raised missing_key)
  /\ map cmd_line (issued (publish Demo.repo Demo.posix Demo.toolchain "https://feed"
                             (Some "explicit") s).1)
     = [push_command Demo.posix (Demo.artifacts // "Foo.1.0.0.nupkg") "explicit" "https://feed"]
  /\ map cmd_line (issued (publish Demo.repo Demo.posix Demo.toolchain "https://feed"
                             None s).1)
     = [push_command Demo.posix (Demo.artifacts // "Foo.1.0.0.nupkg") "from-env" "https://feed"].
Proof. by vm_compute. Qed.

Lemma pack_starts_from_empty_artifacts_witness :
  let s := MkState DemoVariants.unlocked ∅ [] [] [] in
  let r := invoke (pack_task Demo.repo Demo.posix Demo.toolchain) ∅ s in
  let c := MkCommand
             (pack_command (default "Release" ((∅ : gmap string string) !! "configuration")))
             (Some (Demo.posix (Demo.repo // "src" // "TestRift.NUnit"))) ∅ in
  (issued (run_state r) = issued s /\ exists e, run_failure r = Some e)
  \/ exists fs1,
       (forall e, e ∈ fs1 -> Demo.repo // "artifacts" `prefix_of` e_path e ->
                  e = MkEntry (Demo.repo // "artifacts") Dir false)
       /\ fs_is_dir (Demo.repo // "artifacts") fs1 = true
       /\ issued (run_state r) = issued s ++ [c]
       /\ fs (run_state r) = (Demo.toolchain c (∅ ∪ environ s) fs1).1.
Proof.
  intros s.
  apply (pack_starts_from_empty_artifacts Demo.repo Demo.posix Demo.toolchain ∅ s).
  - intros e (e' & -> & _)%list_elem_of_fmap. reflexivity.
  - intros e _ _ _. reflexivity.
Defined.

(** On the unlocked example tree the stale [Foo] packages are gone when the
    toolchain packs, and only the new package is there afterwards. *)
Example demo_pack_no_stale_package :
  let r := invoke (pack_task Demo.repo Demo.posix Demo.toolchain) ∅
             (MkState DemoVariants.unlocked ∅ [] [] []) in
  run_failure r = None
  /\ fs_glob Demo.artifacts ".nupkg" (fs (run_state r))
     = [Demo.artifacts // "TestRift.NUnit.2.0.0.nupkg"].
Proof. by vm_compute. Qed.
